(** * ConfigLang: the Python binding and the engine it drives

    The repository is a ctypes binding ([configlang/configlang.py]) for a
    native configuration-language engine.  Part I embeds the binding as it
    is written: the status constants, the exception classes, and every
    method of [class ConfigLang] as a program that issues foreign calls.
    Part II models the engine the binding drives (lexer, parser, evaluator,
    variable store, serializer) from its specification; its source is not
    part of the Python package.  Part III states and proves the properties.

    Conventions.  Python [str] and the [bytes] handed to the engine are both
    [string]: text is identified with its UTF-8 encoding, so encoding and
    decoding are the identity.  A foreign call carries the [bytes] object
    the binding passes; the library reads it as a C string, [c_str]: the
    bytes before the first NUL.  A Python [int] is a [Z]; a value that
    crosses the boundary as [ctypes.c_int], either way, is reduced to 32
    bits by [c_int]. *)

From Stdlib Require Import ZArith String Ascii DecimalString DecimalZ Lia.
From stdpp Require Import base option list gmap strings.

Open Scope Z_scope.

(* ===================================================================== *)
(** * Part I.  The binding layer                                          *)
(* ===================================================================== *)

(** ** Error codes (matching C library) *)

Definition ERR_CFG_OK : Z := 0.
Definition ERR_CFG_NULL_POINTER : Z := -1.
Definition ERR_CFG_FILE_ERROR : Z := -2.
Definition ERR_CFG_PARSE_ERROR : Z := -3.
Definition ERR_CFG_VARIABLE_NOT_FOUND : Z := -4.
Definition ERR_CFG_CONST_VIOLATION : Z := -5.
Definition ERR_CFG_OUT_OF_MEMORY : Z := -6.
Definition ERR_CFG_TYPE_MISMATCH : Z := -7.
Definition ERR_CFG_UNKNOWN_ERROR : Z := -8.

(** ** Python classes and exceptions

    The five classes the module declares, and the builtins its methods
    raise.  [py_base] is the single base named in each [class] statement. *)

Inductive PyClass : Type :=
| BaseException
| Exception
| TypeError
| AttributeError
| OSError
| FileNotFoundError
| ConfigLangError
| ParseError
| VariableNotFoundError
| ConstViolationError
| TypeMismatchError.

#[global] Instance PyClass_eq_dec : EqDecision PyClass.
Proof. solve_decision. Defined.

Definition py_base (c : PyClass) : option PyClass :=
  match c with
  | BaseException => None
  | Exception => Some BaseException
  | TypeError => Some Exception
  | AttributeError => Some Exception
  | OSError => Some Exception
  | FileNotFoundError => Some OSError
  | ConfigLangError => Some Exception
  | ParseError => Some ConfigLangError
  | VariableNotFoundError => Some ConfigLangError
  | ConstViolationError => Some ConfigLangError
  | TypeMismatchError => Some ConfigLangError
  end.

(** The method resolution order of a single-inheritance class: the class,
    then its base, and so on.  No chain above is longer than four. *)
Fixpoint py_mro_upto (depth : nat) (c : PyClass) : list PyClass :=
  match depth with
  | O => []
  | S d => c :: match py_base c with
                | Some b => py_mro_upto d b
                | None => []
                end
  end.

Definition py_mro (c : PyClass) : list PyClass := py_mro_upto 4 c.

Definition issubclass (c d : PyClass) : bool := bool_decide (d ∈ py_mro c).

(** An exception instance: its class and the single argument the module
    always passes, the message. *)
Record PyExc : Type := mkExc { exc_class : PyClass; exc_msg : string }.

Definition isinstance (e : PyExc) (c : PyClass) : bool :=
  issubclass (exc_class e) c.

(** Python values, as far as [__setitem__] can tell them apart. *)
Inductive PyValue : Type :=
| PyInt (n : Z)
| PyBool (b : bool)
| PyStr (s : string)
| PyBytes (s : string)
| PyNone.

(** [isinstance(value, int)]: [bool] is a subclass of [int]. *)
Definition isinstance_int (v : PyValue) : option Z :=
  match v with
  | PyInt n => Some n
  | PyBool b => Some (if b then 1 else 0)
  | _ => None
  end.

(** [str(n)] of a Python int, as an f-string formats it. *)
Definition py_str_int (n : Z) : string := NilZero.string_of_int (Z.to_int n).

(** ** The foreign-call boundary *)

(** A live engine instance is a non-null address. [c_void_p] as a result or
    an attribute is that address or [None]. *)
Abbreviation handle := positive.
Definition c_void_p : Type := option handle.

(** Conversion of a Python int to [ctypes.c_int]: ctypes does no overflow
    checking, the value is reduced to a signed 32-bit integer.  The same
    holds for the [.value] of a [ctypes.c_int] cell a library wrote to: the
    cell has 32 bits. *)
Definition c_int (n : Z) : Z := (n + 2 ^ 31) mod 2 ^ 32 - 2 ^ 31.

(** [str.encode('utf-8')] and [bytes.decode('utf-8')]: the identity, by
    the convention above.  The [bytes] object is passed whole; what the
    library reads of it is [c_str], below. *)
Definition utf8_encode (s : string) : string := s.
Definition utf8_decode (s : string) : string := s.

Fixpoint has_char (c : ascii) (s : string) : bool :=
  match s with
  | EmptyString => false
  | String x rest => bool_decide (x = c) || has_char c rest
  end.

(** What a library reads of a [bytes] object passed as [ctypes.c_char_p]:
    it is handed the address of the buffer and reads a C string, which
    ends at the first NUL. *)
Fixpoint c_str (s : string) : string :=
  match s with
  | EmptyString => EmptyString
  | String c rest =>
      if bool_decide (c = "000"%char) then EmptyString
      else String c (c_str rest)
  end.

(** A Python call either returns or raises. *)
Inductive outcome (A : Type) : Type :=
| Returned (a : A)
| Raised (e : PyExc).

Arguments Returned {A} a.
Arguments Raised {A} e.

(** The calls a method can make: those of the loaded library, with the
    argument types [_setup_functions] declares, and those of the host
    ([platform], [os], [ctypes.CDLL] and the attribute access on the
    loaded library) that [__init__] uses.  A [bytes] argument is the
    object the binding passes, whole. *)
Inductive ffi : Type :=
| platform_system
| os_path_dirname_file
| os_getcwd
| os_path_join (dir name : string)
| os_path_exists (path : string)
| ctypes_CDLL (path : string)
| ctypes_getattr (lib symbol : string)
| cfg_create
| cfg_destroy (cfg : c_void_p)
| cfg_load_file (cfg : c_void_p) (path : string)
| cfg_load_string (cfg : c_void_p) (code : string)
| cfg_get_int (cfg : c_void_p) (name : string)
| cfg_get_string (cfg : c_void_p) (name : string)
| cfg_set_int (cfg : c_void_p) (name : string) (value : Z)
| cfg_save_file (cfg : c_void_p) (path : string)
| cfg_get_error (cfg : c_void_p).

(** What each call hands back.  A [c_int] result is its value; the two
    getters return the status together with what the engine put in the
    cell passed by reference (for [cfg_get_int] the integer the engine
    means: the binding reads it through the 32 bits of the cell).
    [ctypes_CDLL] returns when the library is loaded and otherwise raises
    what the loader of the platform raises.  [ctypes_getattr lib symbol]
    is the first access to [lib.symbol], which looks the symbol up in the
    library loaded from [lib]: [None] when it is there, and the message of
    the AttributeError ctypes raises when it is not.  The engine's texts
    are texts: the message of [cfg_get_error] is never null, and a getter
    that answers OK has put a string in the cell. *)
Definition ffi_ret (c : ffi) : Type :=
  match c with
  | platform_system => string
  | os_path_dirname_file => string
  | os_getcwd => string
  | os_path_join _ _ => string
  | os_path_exists _ => bool
  | ctypes_CDLL _ => outcome unit
  | ctypes_getattr _ _ => option string
  | cfg_create => c_void_p
  | cfg_destroy _ => unit
  | cfg_load_file _ _ => Z
  | cfg_load_string _ _ => Z
  | cfg_get_int _ _ => (Z * Z)%type
  | cfg_get_string _ _ => (Z * string)%type
  | cfg_set_int _ _ _ => Z
  | cfg_save_file _ _ => Z
  | cfg_get_error _ => string
  end.

Definition is_destroy (c : ffi) : bool :=
  match c with
  | cfg_destroy _ => true
  | _ => false
  end.

(** ** Programs over the boundary

    A method is a finite tree of foreign calls ending in a result. *)
Inductive Prog (A : Type) : Type :=
| Ret (a : A)
| Call (c : ffi) (k : ffi_ret c → Prog A).

Arguments Ret {A} a.
Arguments Call {A} c k.

Fixpoint prog_bind {A B : Type} (p : Prog A) (f : A → Prog B) : Prog B :=
  match p with
  | Ret a => f a
  | Call c k => Call c (λ r, prog_bind (k r) f)
  end.

(** A library is whatever answers the calls, from a state of its own. *)
Definition Library (W : Type) : Type := ∀ c : ffi, W → ffi_ret c * W.

(** Running a program: the result, the final state of the library, and the
    calls made, in order. *)
Fixpoint run {W A : Type} (lib : Library W) (p : Prog A) (w : W)
  : A * W * list ffi :=
  match p with
  | Ret a => (a, w, [])
  | Call c k =>
      let '(r, w1) := lib c w in
      let '(a, w2, calls) := run lib (k r) w1 in
      (a, w2, c :: calls)
  end.

(** The instance attributes [__init__] assigns.  An attribute that was
    never assigned is [None] here; [_cfg], once assigned, holds a
    [c_void_p]. *)
Record Self : Type := mkSelf {
  _lib : option string;
  _cfg : option c_void_p
}.

Definition new_object : Self := {| _lib := None; _cfg := None |}.

(** A method body: it reads and assigns attributes of [self], makes
    foreign calls, and returns or raises. *)
Definition Py (A : Type) : Type := Self → Prog (outcome A * Self).

#[global] Instance Py_ret : MRet Py := λ A a self, Ret (Returned a, self).

#[global] Instance Py_bind : MBind Py := λ A B f m self,
  prog_bind (m self) (λ r,
    match r.1 with
    | Returned a => f a r.2
    | Raised e => Ret (Raised e, r.2)
    end).

Definition raise {A : Type} (c : PyClass) (msg : string) : Py A :=
  λ self, Ret (Raised (mkExc c msg), self).

(** An exception raised by a callee goes on as it is. *)
Definition propagate {A : Type} (e : PyExc) : Py A :=
  λ self, Ret (Raised e, self).

Definition call (c : ffi) : Py (ffi_ret c) :=
  λ self, Call c (λ r, Ret (Returned r, self)).

(** [try: body except cls: handler] *)
Definition try_except {A : Type} (body : Py A) (cls : PyClass)
    (handler : PyExc → Py A) : Py A :=
  λ self,
    prog_bind (body self) (λ r,
      match r.1 with
      | Returned a => Ret (Returned a, r.2)
      | Raised e => if isinstance e cls then handler e r.2
                    else Ret (Raised e, r.2)
      end).

(** [self._lib] and [self._cfg]: reading an attribute that was never
    assigned raises. *)
Definition self_lib : Py string :=
  λ self, match _lib self with
          | Some lib => Ret (Returned lib, self)
          | None => Ret (Raised (mkExc AttributeError
                      "'ConfigLang' object has no attribute '_lib'"), self)
          end.

Definition self_cfg : Py c_void_p :=
  λ self, match _cfg self with
          | Some p => Ret (Returned p, self)
          | None => Ret (Raised (mkExc AttributeError
                      "'ConfigLang' object has no attribute '_cfg'"), self)
          end.

Definition set_self_cfg (p : c_void_p) : Py unit :=
  λ self, Ret (Returned tt, {| _lib := _lib self; _cfg := Some p |}).

Definition set_self_lib (path : string) : Py unit :=
  λ self, Ret (Returned tt, {| _lib := Some path; _cfg := _cfg self |}).

Definition hasattr_cfg : Py bool :=
  λ self, Ret (Returned (match _cfg self with
                         | Some _ => true
                         | None => false
                         end), self).

(** Truth value of a [c_void_p]: [None] is false, an address is true. *)
Definition truthy (p : c_void_p) : bool :=
  match p with
  | Some _ => true
  | None => false
  end.

(** ** [class ConfigLang] *)

Module ConfigLang.

(** [repr] of a [str], as the f-string in [_find_library] shows the
    elements of its two lists: single quotes, unless the string has a
    single quote and no double quote; the quote in use and the backslash
    escaped by a backslash; tab, line feed and carriage return as [\t],
    [\n], [\r]; the other control characters as [\xhh].  Bytes of a
    character outside ASCII are kept, which is what [repr] does for every
    printable character. *)
Definition hex_digit (n : nat) : ascii :=
  List.nth n (list_ascii_of_string "0123456789abcdef") "0"%char.

Definition repr_char (quote c : ascii) : string :=
  let n := nat_of_ascii c in
  if bool_decide (c = quote) || bool_decide (c = "092"%char)
  then String "092"%char (String c EmptyString)
  else if (n =? 9)%nat then String "092"%char "t"
  else if (n =? 10)%nat then String "092"%char "n"
  else if (n =? 13)%nat then String "092"%char "r"
  else if (n <? 32)%nat || (n =? 127)%nat
  then String "092"%char
         (String "x"%char
            (String (hex_digit (n / 16)) (String (hex_digit (n mod 16)) EmptyString)))
  else String c EmptyString.

Fixpoint repr_body (quote : ascii) (s : string) : string :=
  match s with
  | EmptyString => EmptyString
  | String c rest => repr_char quote c +:+ repr_body quote rest
  end.

Definition repr_str (s : string) : string :=
  let quote :=
    if has_char "'"%char s && negb (has_char "034"%char s)
    then "034"%char else "'"%char in
  String quote (repr_body quote s +:+ String quote EmptyString).

Fixpoint repr_items (l : list string) : string :=
  match l with
  | [] => ""
  | [s] => repr_str s
  | s :: rest => repr_str s +:+ ", " +:+ repr_items rest
  end.

Definition repr_list (l : list string) : string := "[" +:+ repr_items l +:+ "]".

Definition lib_names_for (system : string) : list string :=
  if bool_decide (system = "Linux") then ["libconfiglang.so"; "configlang.so"]
  else if bool_decide (system = "Darwin") then ["libconfiglang.dylib"; "configlang.dylib"]
  else if bool_decide (system = "Windows") then ["configlang.dll"; "libconfiglang.dll"]
  else ["libconfiglang.so"].

(** The inner loop: [for lib_name in lib_names]. *)
Fixpoint find_in_dir (path : string) (lib_names : list string)
  : Py (option string) :=
  match lib_names with
  | [] => mret None
  | lib_name :: rest =>
      lib_path ← call (os_path_join path lib_name);
      found ← call (os_path_exists lib_path);
      if found : bool then mret (Some lib_path) else find_in_dir path rest
  end.

(** The outer loop: [for path in search_paths]. *)
Fixpoint find_in_dirs (search_paths lib_names : list string)
  : Py (option string) :=
  match search_paths with
  | [] => mret None
  | path :: rest =>
      r ← find_in_dir path lib_names;
      match r with
      | Some lib_path => mret (Some lib_path)
      | None => find_in_dirs rest lib_names
      end
  end.

Definition _find_library : Py string :=
  system ← call platform_system;
  let lib_names := lib_names_for system in
  here ← call os_path_dirname_file;
  cwd ← call os_getcwd;
  let search_paths := [here; cwd; "/usr/local/lib"; "/usr/lib"] in
  r ← find_in_dirs search_paths lib_names;
  match r with
  | Some lib_path => mret lib_path
  | None =>
      raise FileNotFoundError
        ("ConfigLang library not found. Searched for " +:+ repr_list lib_names
         +:+ " in " +:+ repr_list search_paths +:+ ". "
         +:+ "Please compile the C library and specify its path.")
  end.

(** [self._lib.symbol.argtypes = ...; self._lib.symbol.restype = ...].
    The first access looks the symbol up in the library and raises
    AttributeError when it is not there; the library object keeps the
    function it found, so the second access, and every later call, makes
    no lookup.  The signatures assigned are the argument and result types
    of [ffi]. *)
Definition declare (symbol : string) : Py unit :=
  lib ← self_lib;
  missing ← call (ctypes_getattr lib symbol);
  match missing with
  | None => mret tt
  | Some msg => raise AttributeError msg
  end.

Definition _setup_functions : Py unit :=
  declare "cfg_create";;
  declare "cfg_destroy";;
  declare "cfg_load_file";;
  declare "cfg_load_string";;
  declare "cfg_get_int";;
  declare "cfg_get_string";;
  declare "cfg_set_int";;
  declare "cfg_save_file";;
  declare "cfg_get_error".

Definition __init__ (lib_path : option string) : Py unit :=
  lib_path ← match lib_path with
             | None => _find_library
             | Some p => mret p
             end;
  present ← call (os_path_exists lib_path);
  if negb present
  then raise FileNotFoundError ("ConfigLang library not found: " +:+ lib_path)
  else
    opened ← call (ctypes_CDLL lib_path);
    match opened with
    | Raised e => propagate e
    | Returned _ =>
        set_self_lib lib_path;;
        _setup_functions;;
        p ← call cfg_create;
        set_self_cfg p;;
        if negb (truthy p)
        then raise ConfigLangError "Failed to create ConfigLang instance"
        else mret tt
    end.

Definition __del__ : Py unit :=
  has ← hasattr_cfg;
  if has : bool then
    p ← self_cfg;
    if truthy p then call (cfg_destroy p) else mret tt
  else mret tt.

Definition __exit__ : Py bool :=
  p ← self_cfg;
  (if truthy p then
     call (cfg_destroy p);;
     set_self_cfg None
   else mret tt);;
  mret false.

Definition get_error : Py string :=
  p ← self_cfg;
  error_msg ← call (cfg_get_error p);
  mret (utf8_decode error_msg).

Definition _check_error (error_code : Z) : Py unit :=
  if bool_decide (error_code = ERR_CFG_OK) then mret tt
  else
    error_msg ← get_error;
    if bool_decide (error_code = ERR_CFG_PARSE_ERROR)
    then raise ParseError error_msg
    else if bool_decide (error_code = ERR_CFG_VARIABLE_NOT_FOUND)
    then raise VariableNotFoundError error_msg
    else if bool_decide (error_code = ERR_CFG_CONST_VIOLATION)
    then raise ConstViolationError error_msg
    else if bool_decide (error_code = ERR_CFG_TYPE_MISMATCH)
    then raise TypeMismatchError error_msg
    else raise ConfigLangError
           ("Error " +:+ py_str_int error_code +:+ ": " +:+ error_msg).

Definition load_file (path : string) : Py unit :=
  let path_str := utf8_encode path in
  p ← self_cfg;
  result ← call (cfg_load_file p path_str);
  _check_error result.

Definition load_string (code : string) : Py unit :=
  let code_bytes := utf8_encode code in
  p ← self_cfg;
  result ← call (cfg_load_string p code_bytes);
  _check_error result.

Definition get_int (name : string) : Py Z :=
  let name_bytes := utf8_encode name in
  p ← self_cfg;
  r ← call (cfg_get_int p name_bytes);
  let '(result, value) := r : Z * Z in
  _check_error result;;
  mret (c_int value).

Definition get_string (name : string) : Py string :=
  let name_bytes := utf8_encode name in
  p ← self_cfg;
  r ← call (cfg_get_string p name_bytes);
  let '(result, value) := r : Z * string in
  _check_error result;;
  mret (utf8_decode value).

Definition set_int (name : string) (value : Z) : Py unit :=
  let name_bytes := utf8_encode name in
  p ← self_cfg;
  result ← call (cfg_set_int p name_bytes (c_int value));
  _check_error result.

Definition save_file (path : string) : Py unit :=
  let path_str := utf8_encode path in
  p ← self_cfg;
  result ← call (cfg_save_file p path_str);
  _check_error result.

Definition get (name : string) : Py PyValue :=
  try_except (n ← get_int name; mret (PyInt n)) TypeMismatchError
    (λ _, s ← get_string name; mret (PyStr s)).

Definition __getitem__ (name : string) : Py PyValue := get name.

Definition __setitem__ (name : string) (value : PyValue) : Py unit :=
  match isinstance_int value with
  | None => raise TypeError "Only integer values are supported via setitem"
  | Some n => set_int name n
  end.

End ConfigLang.

(* ===================================================================== *)
(** * Part II.  The engine                                                *)
(* ===================================================================== *)

(** The shared library the binding loads is not part of the Python
    package.  Every definition of this part is a model of it written from
    the design specification of the engine; each says which sentences it
    follows and what it fixes where they leave a choice. *)

Module Engine.

(** ** Characters *)

Definition dquote : ascii := "034"%char.
Definition backslash : ascii := "092"%char.
Definition newline : ascii := "010"%char.
Definition space : ascii := " "%char.

Definition chars (s : string) : list ascii := list_ascii_of_string s.
Definition text (cs : list ascii) : string := string_of_list_ascii cs.

Definition is_digit (c : ascii) : bool :=
  let n := nat_of_ascii c in (48 <=? n)%nat && (n <=? 57)%nat.

Definition is_letter (c : ascii) : bool :=
  let n := nat_of_ascii c in
  ((65 <=? n)%nat && (n <=? 90)%nat) || ((97 <=? n)%nat && (n <=? 122)%nat).

Definition is_ident_start (c : ascii) : bool :=
  is_letter c || bool_decide (c = "_"%char).

Definition is_ident_char (c : ascii) : bool :=
  is_ident_start c || is_digit c.

Definition is_space (c : ascii) : bool :=
  let n := nat_of_ascii c in
  bool_decide (n = 32%nat) || ((9 <=? n)%nat && (n <=? 13)%nat).

(** ** Data model *)

(** Modelled from the spec: the value model of the engine, "tagged union
    { Int(i64-range integer), Str(owned string) }".  The integer is a
    mathematical integer; the spec gives no behaviour at the ends of the
    range. *)
Inductive Value : Type :=
| VInt (n : Z)
| VStr (s : string).

(** Modelled from the spec: the engine's Variable, "{ name: unique string
    key, value: Value, is_const: bool }". *)
Record Var : Type := mkVar {
  var_name : string;
  var_value : Value;
  var_is_const : bool
}.

(** Modelled from the spec: the engine's environment, a "mapping from
    variable name to Variable, insertion order preserved": the variables
    in the order of their first assignment. *)
Definition Environment : Type := list Var.

#[global] Instance Value_eq_dec : EqDecision Value.
Proof. solve_decision. Defined.

#[global] Instance Var_eq_dec : EqDecision Var.
Proof. solve_decision. Defined.

Inductive Keyword : Type := KwSet | KwConst | KwIf.

Inductive CompareOp : Type := OpLt | OpGt | OpLe | OpGe | OpEq | OpNe.

Inductive Operator : Type :=
| OpAssign
| OpCompare (op : CompareOp).

(** Modelled from the spec: the engine's token, "one of {IDENT,
    INT_LITERAL, STRING_LITERAL, KEYWORD(set|const|if),
    OPERATOR(=,<,>,<=,>=,==,!=), LBRACE, RBRACE, EOF}; carries raw
    text/value and source position". *)
Inductive TokenKind : Type :=
| IDENT (name : string)
| INT_LITERAL (n : Z)
| STRING_LITERAL (s : string)
| KEYWORD (k : Keyword)
| OPERATOR (o : Operator)
| LBRACE
| RBRACE
| EOF.

Record Position : Type := mkPos { pos_line : nat; pos_column : nat }.

Record Token : Type := mkTok { tok_kind : TokenKind; tok_pos : Position }.

#[global] Instance Keyword_eq_dec : EqDecision Keyword.
Proof. solve_decision. Defined.
#[global] Instance CompareOp_eq_dec : EqDecision CompareOp.
Proof. solve_decision. Defined.
#[global] Instance Operator_eq_dec : EqDecision Operator.
Proof. solve_decision. Defined.
#[global] Instance TokenKind_eq_dec : EqDecision TokenKind.
Proof. solve_decision. Defined.
#[global] Instance Position_eq_dec : EqDecision Position.
Proof. solve_decision. Defined.
#[global] Instance Token_eq_dec : EqDecision Token.
Proof. solve_decision. Defined.

(** ** Lexer *)

Inductive LexErrorKind : Type :=
| UnterminatedString
| UnrecognizedChar (c : ascii).

(** Modelled from the spec: the lexer's failure, "LexError on an
    unterminated string literal or an unrecognized character, carrying
    line/column". *)
Record LexError : Type := mkLexError {
  lex_error_kind : LexErrorKind;
  lex_error_pos : Position
}.

Definition start_pos : Position := mkPos 1 1.

Definition advance (p : Position) (c : ascii) : Position :=
  if bool_decide (c = newline) then mkPos (S (pos_line p)) 1
  else mkPos (pos_line p) (S (pos_column p)).

(** What the lexer is in the middle of.  The position is where the
    pending token began. *)
Inductive LexState : Type :=
| LStart
| LWord (at_ : Position) (acc : list ascii)
| LMinus (at_ : Position)
| LNumber (at_ : Position) (negative : bool) (digits : list ascii)
| LString (at_ : Position) (acc : list ascii)
| LStringEsc (at_ : Position) (acc : list ascii)
| LOp (at_ : Position) (c : ascii).

(** A run of identifier characters is a keyword or an identifier. *)
Definition word_kind (w : string) : TokenKind :=
  if bool_decide (w = "set") then KEYWORD KwSet
  else if bool_decide (w = "const") then KEYWORD KwConst
  else if bool_decide (w = "if") then KEYWORD KwIf
  else IDENT w.

(** The value of a run of decimal digits. *)
Definition decimal_value (digits : list ascii) : Z :=
  match NilZero.uint_of_string (text digits) with
  | Some u => Z.of_uint u
  | None => 0
  end.

Definition number_kind (negative : bool) (digits : list ascii) : TokenKind :=
  INT_LITERAL (if negative then - decimal_value digits else decimal_value digits).

(** The operator a single operator character stands for; [!] alone is
    no operator. *)
Definition single_op (c : ascii) : option Operator :=
  if bool_decide (c = "="%char) then Some OpAssign
  else if bool_decide (c = "<"%char) then Some (OpCompare OpLt)
  else if bool_decide (c = ">"%char) then Some (OpCompare OpGt)
  else None.

(** The operator made of an operator character followed by [=]. *)
Definition double_op (c : ascii) : option Operator :=
  if bool_decide (c = "="%char) then Some (OpCompare OpEq)
  else if bool_decide (c = "<"%char) then Some (OpCompare OpLe)
  else if bool_decide (c = ">"%char) then Some (OpCompare OpGe)
  else if bool_decide (c = "!"%char) then Some (OpCompare OpNe)
  else None.

Definition is_op_char (c : ascii) : bool :=
  bool_decide (c = "="%char) || bool_decide (c = "<"%char)
  || bool_decide (c = ">"%char) || bool_decide (c = "!"%char).

(** One character read with no token pending. *)
Definition lex_start (p : Position) (c : ascii)
  : LexError + (list Token * LexState) :=
  if is_space c then inr ([], LStart)
  else if is_ident_start c then inr ([], LWord p [c])
  else if is_digit c then inr ([], LNumber p false [c])
  else if bool_decide (c = "-"%char) then inr ([], LMinus p)
  else if bool_decide (c = dquote) then inr ([], LString p [])
  else if bool_decide (c = "{"%char) then inr ([mkTok LBRACE p], LStart)
  else if bool_decide (c = "}"%char) then inr ([mkTok RBRACE p], LStart)
  else if is_op_char c then inr ([], LOp p c)
  else inl (mkLexError (UnrecognizedChar c) p).

(** The pending token is complete: emit it, then read [c] afresh. *)
Definition lex_emit_then (t : Token) (p : Position) (c : ascii)
  : LexError + (list Token * LexState) :=
  match lex_start p c with
  | inl e => inl e
  | inr (ts, st) => inr (t :: ts, st)
  end.

(** One character read in state [st] at position [p]. *)
Definition lex_step (st : LexState) (p : Position) (c : ascii)
  : LexError + (list Token * LexState) :=
  match st with
  | LStart => lex_start p c
  | LWord at_ acc =>
      if is_ident_char c then inr ([], LWord at_ (acc ++ [c]))
      else lex_emit_then (mkTok (word_kind (text acc)) at_) p c
  | LMinus at_ =>
      if is_digit c then inr ([], LNumber at_ true [c])
      else inl (mkLexError (UnrecognizedChar "-"%char) at_)
  | LNumber at_ neg ds =>
      if is_digit c then inr ([], LNumber at_ neg (ds ++ [c]))
      else lex_emit_then (mkTok (number_kind neg ds) at_) p c
  | LString at_ acc =>
      if bool_decide (c = dquote)
      then inr ([mkTok (STRING_LITERAL (text acc)) at_], LStart)
      else if bool_decide (c = backslash) then inr ([], LStringEsc at_ acc)
      else inr ([], LString at_ (acc ++ [c]))
  | LStringEsc at_ acc =>
      if bool_decide (c = dquote) || bool_decide (c = backslash)
      then inr ([], LString at_ (acc ++ [c]))
      else inr ([], LString at_ (acc ++ [backslash; c]))
  | LOp at_ o =>
      if bool_decide (c = "="%char) then
        match double_op o with
        | Some op => inr ([mkTok (OPERATOR op) at_], LStart)
        | None => inl (mkLexError (UnrecognizedChar o) at_)
        end
      else
        match single_op o with
        | Some op => lex_emit_then (mkTok (OPERATOR op) at_) p c
        | None => inl (mkLexError (UnrecognizedChar o) at_)
        end
  end.

(** End of input in state [st]: the pending token, if any, then [EOF]. *)
Definition lex_finish (st : LexState) (p : Position)
  : LexError + list Token :=
  match st with
  | LStart => inr [mkTok EOF p]
  | LWord at_ acc => inr [mkTok (word_kind (text acc)) at_; mkTok EOF p]
  | LMinus at_ => inl (mkLexError (UnrecognizedChar "-"%char) at_)
  | LNumber at_ neg ds => inr [mkTok (number_kind neg ds) at_; mkTok EOF p]
  | LString at_ _ | LStringEsc at_ _ => inl (mkLexError UnterminatedString at_)
  | LOp at_ o =>
      match single_op o with
      | Some op => inr [mkTok (OPERATOR op) at_; mkTok EOF p]
      | None => inl (mkLexError (UnrecognizedChar o) at_)
      end
  end.

Fixpoint lex_from (st : LexState) (p : Position) (cs : list ascii)
  : LexError + list Token :=
  match cs with
  | [] => lex_finish st p
  | c :: rest =>
      match lex_step st p c with
      | inl e => inl e
      | inr (ts, st') =>
          match lex_from st' (advance p c) rest with
          | inl e => inl e
          | inr more => inr (ts ++ more)
          end
      end
  end.

(** Modelled from the spec: the engine's lexer, "tokenize(source: text)
    -> sequence of Token", which "skips whitespace" and "fails with
    LexError on an unterminated string literal or an unrecognized
    character".  The spec names the token kinds but not their spelling;
    fixed here: identifiers are a letter or underscore followed by
    letters, digits and underscores; an integer literal is a run of
    decimal digits, optionally preceded by a minus sign; a string literal
    runs from a double quote to the next unescaped one, a backslash
    before a quote or a backslash stands for that character (the escapes
    the serializer writes), any other backslash is kept; line breaks are
    whitespace. *)
Definition tokenize (source : string) : LexError + list Token :=
  lex_from LStart start_pos (chars source).

(** ** Parser *)

(** Modelled from the spec: the engine's Expr, "literal integer, literal
    string, or variable reference". *)
Inductive Expr : Type :=
| EInt (n : Z)
| EStr (s : string)
| EVar (name : string).

(** Modelled from the spec: the engine's Comparison, "Expr <op> Expr
    where op is one of <, >, <=, >=, ==, !=". *)
Record Comparison : Type := mkCmp {
  cmp_left : Expr;
  cmp_op : CompareOp;
  cmp_right : Expr
}.

(** Modelled from the spec: the engine's Statement, "Assign { name,
    mutable, value }" for [set] and [const set], and "Conditional {
    condition, body: sequence of Statement }" for [if]. *)
#[warnings="-register-all"]
Inductive Statement : Type :=
| Assign (name : string) (mutable : bool) (value : Expr)
| Conditional (condition : Comparison) (body : list Statement).

Inductive ParseErrorKind : Type :=
| UnexpectedToken
| MissingAssignmentTarget
| UnterminatedBlock
| IncompatibleOperands.

(** Modelled from the spec: the parser's failure, "ParseError (kind:
    unexpected token, missing assignment target, unterminated block,
    type-incompatible comparison operands ...) including the offending
    token's position". *)
Record ParseError : Type := mkParseError {
  parse_error_kind : ParseErrorKind;
  parse_error_at : Token
}.

(** The token under the cursor; the lexer ends every stream with [EOF]. *)
Definition peek (toks : list Token) : Token :=
  match toks with
  | t :: _ => t
  | [] => mkTok EOF (mkPos 0 0)
  end.

(** [expr := INT_LITERAL | STRING_LITERAL | IDENT] *)
Definition parse_expr (toks : list Token)
  : ParseError + (Expr * list Token) :=
  match toks with
  | mkTok (INT_LITERAL n) _ :: rest => inr (EInt n, rest)
  | mkTok (STRING_LITERAL s) _ :: rest => inr (EStr s, rest)
  | mkTok (IDENT x) _ :: rest => inr (EVar x, rest)
  | _ => inl (mkParseError UnexpectedToken (peek toks))
  end.

Definition is_ordering (op : CompareOp) : bool :=
  match op with
  | OpLt | OpGt | OpLe | OpGe => true
  | OpEq | OpNe => false
  end.

(** Operands whose kinds can be told apart before evaluation: two
    literals of different kinds, or a string literal under an ordering
    operator. *)
Definition operands_incompatible (l : Expr) (op : CompareOp) (r : Expr)
  : bool :=
  match l, r with
  | EInt _, EStr _ | EStr _, EInt _ => true
  | EStr _, _ | _, EStr _ => is_ordering op
  | _, _ => false
  end.

(** [comparison := expr COMPARE_OP expr] *)
Definition parse_comparison (toks : list Token)
  : ParseError + (Comparison * list Token) :=
  match parse_expr toks with
  | inl e => inl e
  | inr (l, rest) =>
      match rest with
      | mkTok (OPERATOR (OpCompare op)) at_ :: rest' =>
          match parse_expr rest' with
          | inl e => inl e
          | inr (r, rest'') =>
              if operands_incompatible l op r
              then inl (mkParseError IncompatibleOperands
                          (mkTok (OPERATOR (OpCompare op)) at_))
              else inr (mkCmp l op r, rest'')
          end
      | _ => inl (mkParseError UnexpectedToken (peek rest))
      end
  end.

(** The rest of an assignment, after [set]: [IDENT "=" expr]. *)
Definition parse_assign (mutable : bool) (toks : list Token)
  : ParseError + (Statement * list Token) :=
  match toks with
  | mkTok (IDENT name) _ :: mkTok (OPERATOR OpAssign) _ :: rest =>
      match parse_expr rest with
      | inl e => inl e
      | inr (value, rest') => inr (Assign name mutable value, rest')
      end
  | mkTok (IDENT _) _ :: rest => inl (mkParseError UnexpectedToken (peek rest))
  | _ => inl (mkParseError MissingAssignmentTarget (peek toks))
  end.

Definition ends_block (t : Token) : bool :=
  match tok_kind t with
  | RBRACE | EOF => true
  | _ => false
  end.

(** Recursive descent.  [depth] bounds the number of nested calls; a
    stream of [n] tokens needs fewer than [n]. *)
Fixpoint parse_statement (depth : nat) (toks : list Token)
  : ParseError + (Statement * list Token) :=
  match depth with
  | O => inl (mkParseError UnterminatedBlock (peek toks))
  | S depth' =>
      match toks with
      | mkTok (KEYWORD KwConst) _ :: mkTok (KEYWORD KwSet) _ :: rest =>
          parse_assign false rest
      | mkTok (KEYWORD KwSet) _ :: rest => parse_assign true rest
      | mkTok (KEYWORD KwIf) _ :: rest =>
          match parse_comparison rest with
          | inl e => inl e
          | inr (condition, rest') =>
              match rest' with
              | mkTok LBRACE _ :: inner =>
                  match parse_statements depth' inner with
                  | inl e => inl e
                  | inr (body, after) =>
                      match after with
                      | mkTok RBRACE _ :: rest'' =>
                          inr (Conditional condition body, rest'')
                      | _ => inl (mkParseError UnterminatedBlock (peek after))
                      end
                  end
              | _ => inl (mkParseError UnexpectedToken (peek rest'))
              end
          end
      | mkTok (KEYWORD KwConst) _ :: rest =>
          inl (mkParseError UnexpectedToken (peek rest))
      | _ => inl (mkParseError UnexpectedToken (peek toks))
      end
  end
with parse_statements (depth : nat) (toks : list Token)
  : ParseError + (list Statement * list Token) :=
  match depth with
  | O => inl (mkParseError UnterminatedBlock (peek toks))
  | S depth' =>
      if ends_block (peek toks) then inr ([], toks)
      else
        match parse_statement depth' toks with
        | inl e => inl e
        | inr (s, rest) =>
            match parse_statements depth' rest with
            | inl e => inl e
            | inr (ss, rest') => inr (s :: ss, rest')
            end
        end
  end.

(** Modelled from the spec: the engine's parser, "parse(tokens) ->
    sequence of Statement", recursive descent over the grammar
    [program := statement*], [statement := ("const")? "set" IDENT "="
    expr | "if" comparison "{" statement* "}"].  Fixed here: operands the
    grammar can already tell apart are refused at this stage. *)
Definition parse (toks : list Token) : ParseError + list Statement :=
  match parse_statements (S (length toks)) toks with
  | inl e => inl e
  | inr (program, rest) =>
      match rest with
      | [mkTok EOF _] => inr program
      | _ => inl (mkParseError UnexpectedToken (peek rest))
      end
  end.

(** ** Environment *)

Definition lookup (name : string) (env : Environment) : option Var :=
  List.find (λ v, bool_decide (var_name v = name)) env.

(** Insert or overwrite: an existing variable is replaced where it
    stands, a new one goes to the end. *)
Fixpoint store (v : Var) (env : Environment) : Environment :=
  match env with
  | [] => [v]
  | u :: rest =>
      if bool_decide (var_name u = var_name v) then v :: rest
      else u :: store v rest
  end.

(** ** Evaluator *)

(** Modelled from the spec: the engine's error taxonomy, "LexError,
    ParseError (malformed grammar), VariableNotFound, ConstViolation,
    TypeMismatch, FileError (I/O failure on load/save), OutOfMemory
    (allocation failure), UnknownError (catch-all)", and the null handle
    that the status list of the boundary names. *)
Inductive Error : Type :=
| LexFailure (e : LexError)
| ParseFailure (e : ParseError)
| VariableNotFound (name : string)
| ConstViolation (name : string)
| TypeMismatch
| FileError (path : string)
| OutOfMemory
| UnknownError
| NullPointer.

Definition eval_expr (e : Expr) (env : Environment) : Error + Value :=
  match e with
  | EInt n => inr (VInt n)
  | EStr s => inr (VStr s)
  | EVar x =>
      match lookup x env with
      | Some v => inr (var_value v)
      | None => inl (VariableNotFound x)
      end
  end.

Definition compare_int (op : CompareOp) (a b : Z) : bool :=
  match op with
  | OpLt => a <? b
  | OpGt => a >? b
  | OpLe => a <=? b
  | OpGe => a >=? b
  | OpEq => a =? b
  | OpNe => negb (a =? b)
  end.

Definition eval_comparison (c : Comparison) (env : Environment)
  : Error + bool :=
  match eval_expr (cmp_left c) env with
  | inl e => inl e
  | inr l =>
      match eval_expr (cmp_right c) env with
      | inl e => inl e
      | inr r =>
          match l, r with
          | VInt a, VInt b => inr (compare_int (cmp_op c) a b)
          | VStr a, VStr b =>
              match cmp_op c with
              | OpEq => inr (bool_decide (a = b))
              | OpNe => inr (negb (bool_decide (a = b)))
              | _ => inl TypeMismatch
              end
          | _, _ => inl TypeMismatch
          end
      end
  end.

Definition exec_assign (name : string) (mutable : bool) (value : Expr)
    (env : Environment) : option Error * Environment :=
  match eval_expr value env with
  | inl e => (Some e, env)
  | inr v =>
      match lookup name env with
      | Some old =>
          if var_is_const old then (Some (ConstViolation name), env)
          else (None, store (mkVar name v (negb mutable)) env)
      | None => (None, store (mkVar name v (negb mutable)) env)
      end
  end.

(** One statement; the environment comes back also when it fails, with
    whatever was applied before the failure. *)
Fixpoint exec_statement (s : Statement) (env : Environment)
  : option Error * Environment :=
  match s with
  | Assign name mutable value => exec_assign name mutable value env
  | Conditional condition body =>
      match eval_comparison condition env with
      | inl e => (Some e, env)
      | inr false => (None, env)
      | inr true =>
          (fix exec_body (l : list Statement) (env : Environment) :=
             match l with
             | [] => (None, env)
             | s' :: l' =>
                 match exec_statement s' env with
                 | (Some e, env') => (Some e, env')
                 | (None, env') => exec_body l' env'
                 end
             end) body env
      end
  end.

(** Modelled from the spec: the engine's evaluator,
    "execute(statements, environment)", "applied in sequence": an
    assignment resolves its value, fails with ConstViolation on a const
    target "and does not mutate", "otherwise insert or overwrite the
    variable, setting is_const from the statement's qualifier"; a
    conditional runs its body "against the same environment" when the
    condition holds; "a failed statement aborts the remainder" and
    "already-applied mutations are not rolled back". *)
Fixpoint execute (statements : list Statement) (env : Environment)
  : option Error * Environment :=
  match statements with
  | [] => (None, env)
  | s :: rest =>
      match exec_statement s env with
      | (Some e, env') => (Some e, env')
      | (None, env') => execute rest env'
      end
  end.

(** ** Serializer *)

Definition decimal (n : Z) : list ascii :=
  chars (NilZero.string_of_int (Z.to_int n)).

Definition escape_char (c : ascii) : list ascii :=
  if bool_decide (c = dquote) || bool_decide (c = backslash)
  then [backslash; c] else [c].

Definition escape (cs : list ascii) : list ascii :=
  flat_map escape_char cs.

Definition render_value (v : Value) : list ascii :=
  match v with
  | VInt n => decimal n
  | VStr s => dquote :: escape (chars s) ++ [dquote]
  end.

Definition render_var (v : Var) : list ascii :=
  chars (if var_is_const v then "const set " else "set ")
  ++ chars (var_name v) ++ chars " = " ++ render_value (var_value v)
  ++ [newline].

(** Modelled from the spec: the engine's serializer, "render(environment)
    -> text", which "emits one set (or const set) line per variable in
    the environment's insertion order, using a canonical literal
    encoding: integers as decimal, strings double-quoted with escaping of
    quote and backslash characters". *)
Definition render (env : Environment) : string :=
  text (flat_map render_var env).

(** ** Diagnostics and status codes *)

Definition nat_str (n : nat) : string := NilZero.string_of_uint (Nat.to_uint n).

Definition describe_pos (p : Position) : string :=
  "line " +:+ nat_str (pos_line p) +:+ ", column " +:+ nat_str (pos_column p).

(** The text of a diagnostic.  The spec asks for a message per failure
    and leaves its wording open. *)
Definition describe (e : Error) : string :=
  match e with
  | LexFailure l =>
      "Lex error at " +:+ describe_pos (lex_error_pos l) +:+
      match lex_error_kind l with
      | UnterminatedString => ": unterminated string literal"
      | UnrecognizedChar c => ": unrecognized character " +:+ String c EmptyString
      end
  | ParseFailure q =>
      "Parse error at " +:+ describe_pos (tok_pos (parse_error_at q)) +:+
      match parse_error_kind q with
      | UnexpectedToken => ": unexpected token"
      | MissingAssignmentTarget => ": missing assignment target"
      | UnterminatedBlock => ": unterminated block"
      | IncompatibleOperands => ": incompatible comparison operands"
      end
  | VariableNotFound x => "Variable not found: " +:+ x
  | ConstViolation x => "Cannot modify const variable: " +:+ x
  | TypeMismatch => "Type mismatch"
  | FileError path => "Cannot open file: " +:+ path
  | OutOfMemory => "Out of memory"
  | UnknownError => "Unknown error"
  | NullPointer => "Null pointer"
  end.

(** Modelled from the spec: the engine's status codes at the boundary,
    "OK=0, NULL_POINTER=-1, FILE_ERROR=-2, PARSE_ERROR=-3,
    VARIABLE_NOT_FOUND=-4, CONST_VIOLATION=-5, OUT_OF_MEMORY=-6,
    TYPE_MISMATCH=-7, UNKNOWN_ERROR=-8".  The list has no code for the
    lexer; fixed here: its failures are reported as PARSE_ERROR. *)
Definition status (e : Error) : Z :=
  match e with
  | LexFailure _ | ParseFailure _ => ERR_CFG_PARSE_ERROR
  | VariableNotFound _ => ERR_CFG_VARIABLE_NOT_FOUND
  | ConstViolation _ => ERR_CFG_CONST_VIOLATION
  | TypeMismatch => ERR_CFG_TYPE_MISMATCH
  | FileError _ => ERR_CFG_FILE_ERROR
  | OutOfMemory => ERR_CFG_OUT_OF_MEMORY
  | UnknownError => ERR_CFG_UNKNOWN_ERROR
  | NullPointer => ERR_CFG_NULL_POINTER
  end.

(** ** The engine instance and its operations *)

(** Modelled from the spec: the engine instance, "one independent
    interpreter state, owning one Environment", with its "instance-scoped
    last-error message". *)
Record Instance : Type := mkInstance {
  inst_env : Environment;
  inst_last_error : string
}.

Definition empty_instance : Instance := mkInstance [] "".

(** Every fallible call overwrites the last-error message: the
    diagnostic of a failure, the empty text on success. *)
Definition succeed (env : Environment) : Z * Instance :=
  (ERR_CFG_OK, mkInstance env "").

Definition fail (e : Error) (env : Environment) : Z * Instance :=
  (status e, mkInstance env (describe e)).

Definition load_source (source : string) (env : Environment)
  : option Error * Environment :=
  match tokenize source with
  | inl e => (Some (LexFailure e), env)
  | inr toks =>
      match parse toks with
      | inl e => (Some (ParseFailure e), env)
      | inr program => execute program env
      end
  end.

(** Modelled from the spec: the engine's [load_string(handle, text) ->
    status]: the text goes through lexer, parser and evaluator; a failure
    is reported with its diagnostic and keeps what was executed. *)
Definition load_string (source : string) (i : Instance) : Z * Instance :=
  match load_source source (inst_env i) with
  | (None, env) => succeed env
  | (Some e, env) => fail e env
  end.

(** Modelled from the spec: the engine's [get_int(name)], which "fails
    VariableNotFound if absent, TypeMismatch if stored kind is not
    integer".  The second component is what is written to the caller's
    cell; a failure leaves the cell as the caller made it, zero. *)
Definition get_int (name : string) (i : Instance) : Z * Z * Instance :=
  match lookup name (inst_env i) with
  | None => let r := fail (VariableNotFound name) (inst_env i) in (r.1, 0, r.2)
  | Some v =>
      match var_value v with
      | VInt n => let r := succeed (inst_env i) in (r.1, n, r.2)
      | VStr _ => let r := fail TypeMismatch (inst_env i) in (r.1, 0, r.2)
      end
  end.

(** Modelled from the spec: the engine's [get_string(name)],
    "symmetric" to [get_int]. *)
Definition get_string (name : string) (i : Instance)
  : Z * string * Instance :=
  match lookup name (inst_env i) with
  | None => let r := fail (VariableNotFound name) (inst_env i) in (r.1, "", r.2)
  | Some v =>
      match var_value v with
      | VStr s => let r := succeed (inst_env i) in (r.1, s, r.2)
      | VInt _ => let r := fail TypeMismatch (inst_env i) in (r.1, "", r.2)
      end
  end.

(** Modelled from the spec: the engine's [set_int(name, value)], which
    "fails VariableNotFound if absent (external API does not create new
    variables), ConstViolation if const, TypeMismatch if existing stored
    kind is not integer"; the three tests are made in the order the spec
    lists them. *)
Definition set_int (name : string) (value : Z) (i : Instance)
  : Z * Instance :=
  match lookup name (inst_env i) with
  | None => fail (VariableNotFound name) (inst_env i)
  | Some v =>
      if var_is_const v then fail (ConstViolation name) (inst_env i)
      else
        match var_value v with
        | VStr _ => fail TypeMismatch (inst_env i)
        | VInt _ => succeed (store (mkVar (var_name v) (VInt value) false) (inst_env i))
        end
  end.

(** ** The library and its host *)

(** The state behind the foreign calls: the live engine instances by
    handle, the next address to hand out, the text files [load_file] and
    [save_file] see, and what [__init__] asks of the host. *)
Record World : Type := mkWorld {
  instances : gmap handle Instance;
  next_handle : handle;
  files : gmap string string;
  libraries : gset string;
  host_system : string;
  host_module_dir : string;
  host_cwd : string
}.

Definition set_instances (m : gmap handle Instance) (w : World) : World :=
  mkWorld m (next_handle w) (files w) (libraries w)
    (host_system w) (host_module_dir w) (host_cwd w).

Definition set_files (f : gmap string string) (w : World) : World :=
  mkWorld (instances w) (next_handle w) f (libraries w)
    (host_system w) (host_module_dir w) (host_cwd w).

(** Modelled from the spec: the engine's [create() -> handle]: a new
    instance with an empty environment, at an address not in use. *)
Definition create (w : World) : c_void_p * World :=
  let h := next_handle w in
  (Some h,
   mkWorld (<[h := empty_instance]> (instances w)) (Pos.succ h) (files w)
     (libraries w) (host_system w) (host_module_dir w) (host_cwd w)).

(** Modelled from the spec: the engine's [destroy(handle)]. *)
Definition destroy (cfg : c_void_p) (w : World) : World :=
  match cfg with
  | Some h => set_instances (delete h (instances w)) w
  | None => w
  end.

(** An operation on the instance behind a handle.  A null handle, or one
    that is not live, is answered with [null]. *)
Definition on_instance {A : Type} (cfg : c_void_p) (null : A)
    (op : Instance → A * Instance) (w : World) : A * World :=
  match cfg with
  | Some h =>
      match instances w !! h with
      | Some i => let r := op i in (r.1, set_instances (<[h := r.2]> (instances w)) w)
      | None => (null, w)
      end
  | None => (null, w)
  end.

(** Modelled from the spec: the engine's [load_file(handle, path)]: the
    text of the file is loaded; a missing file is a FileError. *)
Definition load_file (path : string) (w : World) (i : Instance)
  : Z * Instance :=
  match files w !! path with
  | Some source => load_string source i
  | None => fail (FileError path) (inst_env i)
  end.

(** Modelled from the spec: the engine's [save_file(handle, path)]: the
    file receives what the serializer renders. *)
Definition save_file (cfg : c_void_p) (path : string) (w : World)
  : Z * World :=
  match cfg with
  | Some h =>
      match instances w !! h with
      | Some i =>
          (ERR_CFG_OK,
           set_files (<[path := render (inst_env i)]> (files w))
             (set_instances (<[h := mkInstance (inst_env i) ""]> (instances w)) w))
      | None => (ERR_CFG_NULL_POINTER, w)
      end
  | None => (ERR_CFG_NULL_POINTER, w)
  end.

(** Modelled from the spec: the engine's [last_error(handle) -> text],
    "the most recent diagnostic message recorded by the engine
    instance". *)
Definition last_error (cfg : c_void_p) (w : World) : string :=
  match cfg with
  | Some h =>
      match instances w !! h with
      | Some i => inst_last_error i
      | None => describe NullPointer
      end
  | None => describe NullPointer
  end.

(** [os.path.join] of a POSIX host. *)
Definition path_join (dir name : string) : string :=
  match name with
  | String "/" _ => name
  | _ =>
      if bool_decide (dir = "") then name
      else if bool_decide (String.get (String.length dir - 1) dir = Some "/"%char)
      then dir +:+ name
      else dir +:+ "/" +:+ name
  end.

Definition path_exists (path : string) (w : World) : bool :=
  bool_decide (path ∈ libraries w) || bool_decide (is_Some (files w !! path)).

(** [ctypes.CDLL] of a POSIX host: a path that is not a library of the
    host raises OSError with the loader's message. *)
Definition open_library (path : string) (w : World) : outcome unit :=
  if bool_decide (path ∈ libraries w) then Returned tt
  else Raised (mkExc OSError
                 (path +:+ ": cannot open shared object file: "
                  +:+ "No such file or directory")).

(** The functions the engine library exports, and the lookup of one of
    them in it: a library of the host is the engine. *)
Definition exported : list string :=
  ["cfg_create"; "cfg_destroy"; "cfg_load_file"; "cfg_load_string";
   "cfg_get_int"; "cfg_get_string"; "cfg_set_int"; "cfg_save_file";
   "cfg_get_error"].

Definition find_symbol (lib symbol : string) : option string :=
  if bool_decide (symbol ∈ exported) then None
  else Some (lib +:+ ": undefined symbol: " +:+ symbol).

(** The engine library together with its host, answering every call the
    binding makes.  The library reads each [bytes] argument as a C
    string. *)
Definition library : Library World :=
  λ c,
    match c as c0 return World → ffi_ret c0 * World with
    | platform_system => λ w, (host_system w, w)
    | os_path_dirname_file => λ w, (host_module_dir w, w)
    | os_getcwd => λ w, (host_cwd w, w)
    | os_path_join dir name => λ w, (path_join dir name, w)
    | os_path_exists path => λ w, (path_exists path w, w)
    | ctypes_CDLL path => λ w, (open_library path w, w)
    | ctypes_getattr lib symbol => λ w, (find_symbol lib symbol, w)
    | cfg_create => create
    | cfg_destroy cfg => λ w, (tt, destroy cfg w)
    | cfg_load_file cfg path =>
        λ w, on_instance cfg ERR_CFG_NULL_POINTER (load_file (c_str path) w) w
    | cfg_load_string cfg code =>
        on_instance cfg ERR_CFG_NULL_POINTER (load_string (c_str code))
    | cfg_get_int cfg name =>
        on_instance cfg (ERR_CFG_NULL_POINTER, 0) (get_int (c_str name))
    | cfg_get_string cfg name =>
        on_instance cfg (ERR_CFG_NULL_POINTER, "") (get_string (c_str name))
    | cfg_set_int cfg name value =>
        on_instance cfg ERR_CFG_NULL_POINTER (set_int (c_str name) value)
    | cfg_save_file cfg path => save_file cfg (c_str path)
    | cfg_get_error cfg => λ w, (last_error cfg w, w)
    end.

End Engine.

(* ===================================================================== *)
(** * Part III.  Properties                                               *)
(* ===================================================================== *)

(** ** Observing a run *)

Definition result_of {W A : Type} (r : outcome A * Self * W * list ffi)
  : outcome A := r.1.1.1.

Definition self_of {W A : Type} (r : outcome A * Self * W * list ffi)
  : Self := r.1.1.2.

Definition world_of {W A : Type} (r : A * W * list ffi) : W := r.1.2.

Definition calls_of {W A : Type} (r : A * W * list ffi) : list ffi := r.2.

(** The answer of a library to one call, and its state afterwards. *)
Definition answer {W : Type} (lib : Library W) (c : ffi) (w : W) : ffi_ret c :=
  (lib c w).1.

Definition after {W : Type} (lib : Library W) (c : ffi) (w : W) : W :=
  (lib c w).2.

(** A method that returns keeps the value [v]; one that raises keeps its
    exception. *)
Definition returning {A B : Type} (v : B) (o : outcome A) : outcome B :=
  match o with
  | Returned _ => Returned v
  | Raised e => Raised e
  end.

(** ** The two hooks that release the instance

    The host runs [__exit__] at the end of every [with] block the object
    is used in, and [__del__] once, when the object is finalised: nothing
    runs on an object after its finaliser. *)
Inductive Hook : Type := Exit | Del.

Definition hook_body (h : Hook) : Py unit :=
  match h with
  | Exit => ConfigLang.__exit__ ≫= λ _, mret tt
  | Del => ConfigLang.__del__
  end.

(** The hooks run one after the other; what a hook raises does not stop
    the later ones from running. *)
Fixpoint run_hooks {W : Type} (lib : Library W) (hooks : list Hook)
    (self : Self) (w : W) : Self * W * list ffi :=
  match hooks with
  | [] => (self, w, [])
  | h :: rest =>
      let r := run lib (hook_body h self) w in
      let '(self', w', calls) := run_hooks lib rest (self_of r) (world_of r) in
      (self', w', calls_of r ++ calls)
  end.

(** A life of the object: [n] blocks left, then finalised or not yet. *)
Definition lifetime (n : nat) (finalised : bool) : list Hook :=
  repeat Exit n ++ (if finalised then [Del] else []).

Definition destroy_calls (calls : list ffi) : list ffi :=
  List.filter is_destroy calls.

(** ** What [_check_error] gives

    The exception [_check_error] raises for a status other than OK. *)
Definition raised_for (status : Z) (msg : string) : PyExc :=
  if bool_decide (status = ERR_CFG_PARSE_ERROR) then mkExc ParseError msg
  else if bool_decide (status = ERR_CFG_VARIABLE_NOT_FOUND)
  then mkExc VariableNotFoundError msg
  else if bool_decide (status = ERR_CFG_CONST_VIOLATION)
  then mkExc ConstViolationError msg
  else if bool_decide (status = ERR_CFG_TYPE_MISMATCH)
  then mkExc TypeMismatchError msg
  else mkExc ConfigLangError ("Error " +:+ py_str_int status +:+ ": " +:+ msg).

(** What a method that ends in [_check_error] gives for a status. *)
Definition status_result {A : Type} (status : Z) (msg : string) (value : A)
  : outcome A :=
  if bool_decide (status = ERR_CFG_OK) then Returned value
  else Raised (raised_for status msg).

Definition check_result {W : Type} (lib : Library W) (self : Self)
    (status : Z) (w : W) : outcome unit :=
  result_of (run lib (ConfigLang._check_error status self) w).

(** [try: body except ConfigLangError: return default] *)
Definition guarded {A : Type} (body : Py A) (default : A) : Py A :=
  try_except body ConfigLangError (λ _, mret default).

Definition holds_handle (self : Self) : bool :=
  match _cfg self with
  | Some (Some _) => true
  | _ => false
  end.

(** A method body is quiet when it leaves the attributes of [self] as
    they are and never calls [cfg_destroy]. *)
Definition quiet {A : Type} (m : Py A) : Prop :=
  ∀ (W : Type) (lib : Library W) (self : Self) (w : W),
    let r := run lib (m self) w in
    self_of r = self ∧ destroy_calls (calls_of r) = [].

(** ** The binding over the engine

    The environment of the instance behind a handle. *)
Definition env_of (w : Engine.World) (h : handle) : option Engine.Environment :=
  Engine.inst_env <$> Engine.instances w !! h.

(** A world to try things on: one live instance holding an integer, a
    string and a const integer. *)
Definition sample_env : Engine.Environment :=
  [Engine.mkVar "x" (Engine.VInt 10) false;
   Engine.mkVar "name" (Engine.VStr "Hello") false;
   Engine.mkVar "max" (Engine.VInt 100) true].

Definition sample_instance : Engine.Instance := Engine.mkInstance sample_env "".

Definition sample_world : Engine.World :=
  Engine.mkWorld {[1%positive := sample_instance]} 2%positive ∅
    {["/usr/lib/libconfiglang.so"]} "Linux" "/opt/app" "/home/user".

Definition sample_self : Self :=
  mkSelf (Some "/usr/lib/libconfiglang.so") (Some (Some 1%positive)).

(** Two names with a NUL inside, which no variable can have: the engine
    reads them as [x] and as [name]. *)
Definition x_nul_y : string := String "x"%char (String "000"%char "y").
Definition name_nul : string := "name" +:+ String "000"%char "!".

Definition not_found (name : string) : PyExc :=
  mkExc VariableNotFoundError (Engine.describe (Engine.VariableNotFound name)).

Definition const_violation (name : string) : PyExc :=
  mkExc ConstViolationError (Engine.describe (Engine.ConstViolation name)).

Definition type_mismatch : PyExc :=
  mkExc TypeMismatchError (Engine.describe Engine.TypeMismatch).

(** The two-line program: [set x = 10], a line break, [set name = "Hello"]. *)
Definition example_program : string :=
  "set x = 10" +:+ String Engine.newline
    ("set name = " +:+ String Engine.dquote ("Hello" +:+ String Engine.dquote "")).

Definition example_env : Engine.Environment :=
  [Engine.mkVar "x" (Engine.VInt 10) false;
   Engine.mkVar "name" (Engine.VStr "Hello") false].

(** A host on which the library is installed and no instance exists yet. *)
Definition fresh_host : Engine.World :=
  Engine.mkWorld ∅ 1%positive ∅ {["/usr/lib/libconfiglang.so"]}
    "Linux" "/opt/app" "/home/user".

(** The docstring's session, from the constructor on. *)
Definition example_session : Py (Z * string) :=
  ConfigLang.__init__ None;;
  ConfigLang.load_string example_program;;
  x ← ConfigLang.get_int "x";
  name ← ConfigLang.get_string "name";
  mret (x, name).

(** ** Round trip

    The lexer's steps over a stretch of text that is not the end of the
    input: the tokens completed on the way and the state reached. *)
Fixpoint lex_steps (st : Engine.LexState) (p : Engine.Position)
    (cs : list ascii) : Engine.LexError + (list Engine.Token * Engine.LexState) :=
  match cs with
  | [] => inr ([], st)
  | c :: rest =>
      match Engine.lex_step st p c with
      | inl e => inl e
      | inr (ts, st') =>
          match lex_steps st' (Engine.advance p c) rest with
          | inl e => inl e
          | inr (more, st'') => inr (ts ++ more, st'')
          end
      end
  end.

Definition advance_all (p : Engine.Position) (cs : list ascii) : Engine.Position :=
  fold_left Engine.advance cs p.

(** From state [st] at [p], the text [cs] yields tokens of the kinds
    [kinds] and leaves the lexer in [st']. *)
Definition lexes_to (st : Engine.LexState) (p : Engine.Position)
    (cs : list ascii) (kinds : list Engine.TokenKind) (st' : Engine.LexState)
  : Prop :=
  ∃ ts, lex_steps st p cs = inr (ts, st') ∧ Engine.tok_kind <$> ts = kinds.

(** A name the lexer reads back as an identifier: a letter or underscore,
    then letters, digits and underscores, and not a keyword. *)
Definition is_identifier (name : string) : bool :=
  match Engine.chars name with
  | c :: cs => Engine.is_ident_start c && forallb Engine.is_ident_char cs
  | [] => false
  end
  && bool_decide (Engine.word_kind name = Engine.IDENT name).

Definition literal_kind (v : Engine.Value) : Engine.TokenKind :=
  match v with
  | Engine.VInt n => Engine.INT_LITERAL n
  | Engine.VStr s => Engine.STRING_LITERAL s
  end.

Definition kinds_of_var (v : Engine.Var) : list Engine.TokenKind :=
  (if Engine.var_is_const v
   then [Engine.KEYWORD Engine.KwConst; Engine.KEYWORD Engine.KwSet]
   else [Engine.KEYWORD Engine.KwSet])
  ++ [Engine.IDENT (Engine.var_name v); Engine.OPERATOR Engine.OpAssign;
      literal_kind (Engine.var_value v)].

Definition expr_of_value (v : Engine.Value) : Engine.Expr :=
  match v with
  | Engine.VInt n => Engine.EInt n
  | Engine.VStr s => Engine.EStr s
  end.

(** The statement a rendered line stands for. *)
Definition statement_of_var (v : Engine.Var) : Engine.Statement :=
  Engine.Assign (Engine.var_name v) (negb (Engine.var_is_const v))
    (expr_of_value (Engine.var_value v)).

(** An environment as [load] builds them: no name twice, every name an
    identifier. *)
Definition well_formed (env : Engine.Environment) : Prop :=
  NoDup (Engine.var_name <$> env)
  ∧ Forall (λ v, is_identifier (Engine.var_name v) = true) env.

(** The environments a sequence of successful loads reaches from the
    empty one, by [load_string] or by [load_file]. *)
Inductive reachable : Engine.Environment → Prop :=
| reachable_empty : reachable []
| reachable_load_string i source i' :
    reachable (Engine.inst_env i) →
    Engine.load_string source i = (ERR_CFG_OK, i') →
    reachable (Engine.inst_env i')
| reachable_load_file i path w i' :
    reachable (Engine.inst_env i) →
    Engine.load_file path w i = (ERR_CFG_OK, i') →
    reachable (Engine.inst_env i').

Definition token_ok (t : Engine.Token) : Prop :=
  match Engine.tok_kind t with
  | Engine.IDENT name => is_identifier name = true
  | _ => True
  end.

Definition state_ok (st : Engine.LexState) : Prop :=
  match st with
  | Engine.LWord _ (c :: cs) =>
      Engine.is_ident_start c && forallb Engine.is_ident_char cs = true
  | Engine.LWord _ [] => False
  | _ => True
  end.

Fixpoint names_ok (s : Engine.Statement) : bool :=
  match s with
  | Engine.Assign name _ _ => is_identifier name
  | Engine.Conditional _ body => forallb names_ok body
  end.

(** ** The rest of the class: context manager and library search *)

(** [__enter__] returns the object itself. *)
Definition __enter__ : Py Self := λ self, Ret (Returned self, self).

(** [with obj: body], as the host runs it on an object already built:
    [__enter__], then the body, then [__exit__] whether the body returned
    or raised; what the body raised is raised again unless [__exit__]
    returned a true value, and then the block has no value. *)
Definition with_block {A : Type} (body : Py A) : Py (option A) :=
  λ self,
    prog_bind (__enter__ self) (λ entered,
      match entered.1 with
      | Raised e => Ret (Raised e, entered.2)
      | Returned _ =>
          prog_bind (body entered.2) (λ done,
            prog_bind (ConfigLang.__exit__ done.2) (λ left,
              match left.1 with
              | Raised e => Ret (Raised e, left.2)
              | Returned suppress =>
                  match done.1 with
                  | Returned a => Ret (Returned (Some a), left.2)
                  | Raised e =>
                      if suppress : bool then Ret (Returned None, left.2)
                      else Ret (Raised e, left.2)
                  end
              end))
      end).








(** The calls of an operation that ends in [_check_error]: the operation's
    own, then the query for the message when the status is not OK. *)
Definition footprint (c : ffi) (status : Z) (p : c_void_p) : list ffi :=
  c :: if bool_decide (status = ERR_CFG_OK) then [] else [cfg_get_error p].

(** The value a method returned, seen through [f]; an exception is kept. *)
Definition outcome_map {A B : Type} (f : A → B) (o : outcome A) : outcome B :=
  match o with
  | Returned a => Returned (f a)
  | Raised e => Raised e
  end.

(** The call a program starts with, if it starts with one. *)
Definition first_call {A : Type} (p : Prog A) : option ffi :=
  match p with
  | Ret _ => None
  | Call c _ => Some c
  end.

(** The four specific exception classes and the status [_check_error]
    raises each for. *)
Definition specific_errors : list (PyClass * Z) :=
  [(ParseError, ERR_CFG_PARSE_ERROR);
   (VariableNotFoundError, ERR_CFG_VARIABLE_NOT_FOUND);
   (ConstViolationError, ERR_CFG_CONST_VIOLATION);
   (TypeMismatchError, ERR_CFG_TYPE_MISMATCH)].

(** [try: body except cls: pass] *)
Definition handled_by (cls : PyClass) (body : Py unit) : Py unit :=
  try_except body cls (λ _, mret tt).

(** The functions [_setup_functions] declares, in its order. *)
Definition cfg_symbols : list string :=
  ["cfg_create"; "cfg_destroy"; "cfg_load_file"; "cfg_load_string";
   "cfg_get_int"; "cfg_get_string"; "cfg_set_int"; "cfg_save_file";
   "cfg_get_error"].

(** In state [w], looking a symbol up changes nothing. *)
Definition symbols_at_rest {W : Type} (lib : Library W) (w : W) : Prop :=
  ∀ path symbol, after lib (ctypes_getattr path symbol) w = w.

(** The message for the first symbol that is missing, if one is. *)
Fixpoint first_failure (answers : list (option string)) : option string :=
  match answers with
  | [] => None
  | Some msg :: _ => Some msg
  | None :: rest => first_failure rest
  end.

Definition first_missing {W : Type} (lib : Library W) (w : W)
    (path : string) : option string :=
  first_failure
    ((λ symbol, answer lib (ctypes_getattr path symbol) w) <$> cfg_symbols).

(** How often a sequence of hooks, run on an object that holds a handle,
    calls [cfg_destroy]: every [__del__] before the first [__exit__] does,
    and the first [__exit__] does. *)
Fixpoint releases (hooks : list Hook) : nat :=
  match hooks with
  | [] => 0
  | Exit :: _ => 1
  | Del :: rest => S (releases rest)
  end.

(** ** Lemmas and theorems *)

(** ** Running programs: equations *)

Lemma run_prog_bind {W A B} (lib : Library W) (p : Prog A) (f : A → Prog B) w :
  run lib (prog_bind p f) w =
  let '(a, w1, t1) := run lib p w in
  let '(b, w2, t2) := run lib (f a) w1 in (b, w2, t1 ++ t2).
Proof.
  revert w. induction p as [a | c k IH]; intros w; simpl.
  - by destruct (run lib (f a) w) as [[b w2] t2].
  - destruct (lib c w) as [r w1]. rewrite IH.
    destruct (run lib (k r) w1) as [[a w2] t1].
    by destruct (run lib (f a) w2) as [[b w3] t2].
Qed.

Lemma run_bind {W A B} (lib : Library W) (m : Py A) (f : A → Py B) self w :
  run lib ((m ≫= f) self) w =
  match run lib (m self) w with
  | (Returned a, s1, w1, t1) =>
      let '(r, w2, t2) := run lib (f a s1) w1 in (r, w2, t1 ++ t2)
  | (Raised e, s1, w1, t1) => (Raised e, s1, w1, t1)
  end.
Proof.
  unfold mbind, Py_bind. rewrite run_prog_bind.
  destruct (run lib (m self) w) as [[[[a|e] s1] w1] t1]; simpl.
  - by destruct (run lib (f a s1) w1) as [[r w2] t2].
  - by rewrite app_nil_r.
Qed.

Ltac py_unfold :=
  unfold hook_body;
  unfold ConfigLang.__getitem__, ConfigLang.get, ConfigLang.__setitem__,
    ConfigLang.load_file, ConfigLang.load_string,
    ConfigLang.get_int, ConfigLang.get_string, ConfigLang.set_int,
    ConfigLang.save_file, ConfigLang._check_error, ConfigLang.get_error,
    ConfigLang.__exit__, ConfigLang.__del__,
    try_except, mbind, Py_bind, mret, Py_ret, call, raise, self_cfg,
    set_self_cfg, hasattr_cfg, utf8_encode, utf8_decode,
    result_of, self_of, world_of, calls_of, answer, after;
  cbn.

(** ** The status codes *)

(** C6.  The status constants of the binding are the integers of the
    engine's list: OK=0, NULL_POINTER=-1, FILE_ERROR=-2, PARSE_ERROR=-3,
    VARIABLE_NOT_FOUND=-4, CONST_VIOLATION=-5, OUT_OF_MEMORY=-6,
    TYPE_MISMATCH=-7, UNKNOWN_ERROR=-8; each survives the passage through
    a [c_int] result unchanged, and no two coincide. *)
Theorem status_constants_exact :
  [ERR_CFG_OK; ERR_CFG_NULL_POINTER; ERR_CFG_FILE_ERROR; ERR_CFG_PARSE_ERROR;
   ERR_CFG_VARIABLE_NOT_FOUND; ERR_CFG_CONST_VIOLATION; ERR_CFG_OUT_OF_MEMORY;
   ERR_CFG_TYPE_MISMATCH; ERR_CFG_UNKNOWN_ERROR]
  = [0; -1; -2; -3; -4; -5; -6; -7; -8]
  ∧ Forall (λ k, c_int k = k)
      [ERR_CFG_OK; ERR_CFG_NULL_POINTER; ERR_CFG_FILE_ERROR;
       ERR_CFG_PARSE_ERROR; ERR_CFG_VARIABLE_NOT_FOUND;
       ERR_CFG_CONST_VIOLATION; ERR_CFG_OUT_OF_MEMORY; ERR_CFG_TYPE_MISMATCH;
       ERR_CFG_UNKNOWN_ERROR]
  ∧ Engine.status <$>
      [Engine.NullPointer; Engine.FileError ""; Engine.VariableNotFound "";
       Engine.ConstViolation ""; Engine.OutOfMemory; Engine.TypeMismatch;
       Engine.UnknownError]
    = [-1; -2; -4; -5; -6; -7; -8].
Proof.
  split; [reflexivity|]. split; [|reflexivity].
  repeat constructor.
Qed.

(** ** Translation of a status into an exception *)

Lemma string_app_assoc (a b c : string) : (a +:+ b) +:+ c = a +:+ (b +:+ c).
Proof.
  induction a as [|x a IH]; [done|].
  change (String x ((a +:+ b) +:+ c) = String x (a +:+ b +:+ c)).
  by rewrite IH.
Qed.

Lemma check_error_ok {W} (lib : Library W) self w :
  run lib (ConfigLang._check_error ERR_CFG_OK self) w = (Returned tt, self, w, []).
Proof. reflexivity. Qed.

(** A status other than OK: the message is fetched (one call), and the
    exception is chosen by the status. *)
Lemma check_error_raises {W} (lib : Library W) l p w status :
  status ≠ ERR_CFG_OK →
  run lib (ConfigLang._check_error status (mkSelf l (Some p))) w =
  (Raised (raised_for status (answer lib (cfg_get_error p) w)),
   mkSelf l (Some p), after lib (cfg_get_error p) w, [cfg_get_error p]).
Proof.
  intros Hne. py_unfold. rewrite bool_decide_eq_false_2 by done. cbn.
  destruct (lib (cfg_get_error p) w) as [msg w1]. cbn.
  unfold raised_for. repeat case_bool_decide; reflexivity.
Qed.

(** After the one call of an operation, what remains is [_check_error] on
    the status [st] in the state [w1]. *)
Ltac delegate_to_check :=
  cbn;
  case_bool_decide; cbn; [done|];
  match goal with
  | |- context [?lib (cfg_get_error ?p) ?w1] =>
      destruct (lib (cfg_get_error p) w1) as [? ?]
  end;
  cbn; repeat (destruct (bool_decide _)); reflexivity.

(** C1.  Whatever library answers the calls: [_check_error] returns on
    status 0, raises ParseError on -3, VariableNotFoundError on -4,
    ConstViolationError on -5, TypeMismatchError on -7 and the base
    ConfigLangError on every other status; the exception carries the
    message the engine gives for its last error (the base one after the
    prefix "Error <status>: "); the five classes are pairwise different;
    and each of load_file, load_string, get_int, get_string, set_int and
    save_file returns or raises exactly as [_check_error] does on the
    status the engine returned to it ([get_int] returning the content of
    its 32-bit cell). *)
Theorem status_translation (W : Type) (lib : Library W) (l : option string)
    (p : c_void_p) :
  let self := mkSelf l (Some p) in
  let msg := λ w, answer lib (cfg_get_error p) w in
  (∀ w, check_result lib self 0 w = Returned tt)
  ∧ (∀ w, check_result lib self (-3) w = Raised (mkExc ParseError (msg w)))
  ∧ (∀ w, check_result lib self (-4) w
          = Raised (mkExc VariableNotFoundError (msg w)))
  ∧ (∀ w, check_result lib self (-5) w
          = Raised (mkExc ConstViolationError (msg w)))
  ∧ (∀ w, check_result lib self (-7) w
          = Raised (mkExc TypeMismatchError (msg w)))
  ∧ (∀ w status, status ∉ [0; -3; -4; -5; -7] →
       check_result lib self status w
       = Raised (mkExc ConfigLangError
                   ("Error " +:+ py_str_int status +:+ ": " +:+ msg w)))
  ∧ (∀ w status, status ≠ 0 →
       ∃ e prefix, check_result lib self status w = Raised e
                   ∧ exc_msg e = prefix +:+ msg w)
  ∧ NoDup [ParseError; VariableNotFoundError; ConstViolationError;
           TypeMismatchError; ConfigLangError]
  ∧ (∀ w path,
       let c := cfg_load_file p path in
       result_of (run lib (ConfigLang.load_file path self) w)
       = check_result lib self (answer lib c w) (after lib c w))
  ∧ (∀ w code,
       let c := cfg_load_string p code in
       result_of (run lib (ConfigLang.load_string code self) w)
       = check_result lib self (answer lib c w) (after lib c w))
  ∧ (∀ w name,
       let c := cfg_get_int p name in
       result_of (run lib (ConfigLang.get_int name self) w)
       = returning (c_int (answer lib c w).2)
           (check_result lib self (answer lib c w).1 (after lib c w)))
  ∧ (∀ w name,
       let c := cfg_get_string p name in
       result_of (run lib (ConfigLang.get_string name self) w)
       = returning (answer lib c w).2
           (check_result lib self (answer lib c w).1 (after lib c w)))
  ∧ (∀ w name value,
       let c := cfg_set_int p name (c_int value) in
       result_of (run lib (ConfigLang.set_int name value self) w)
       = check_result lib self (answer lib c w) (after lib c w))
  ∧ (∀ w path,
       let c := cfg_save_file p path in
       result_of (run lib (ConfigLang.save_file path self) w)
       = check_result lib self (answer lib c w) (after lib c w)).
Proof.
  intros self msg.
  assert (Hraise : ∀ w status, status ≠ 0 →
            check_result lib self status w = _)
    by (intros w status Hs; unfold check_result, self;
        rewrite (check_error_raises lib l p w status Hs); reflexivity).
  repeat apply conj.
  - reflexivity.
  - intros w. by rewrite Hraise.
  - intros w. by rewrite Hraise.
  - intros w. by rewrite Hraise.
  - intros w. by rewrite Hraise.
  - intros w status Hs. rewrite !not_elem_of_cons in Hs.
    destruct Hs as (?&?&?&?&?&_). rewrite Hraise by done.
    unfold raised_for, ERR_CFG_PARSE_ERROR, ERR_CFG_VARIABLE_NOT_FOUND,
      ERR_CFG_CONST_VIOLATION, ERR_CFG_TYPE_MISMATCH.
    by rewrite !bool_decide_eq_false_2 by done.
  - intros w status Hs. rewrite Hraise by done. unfold raised_for. cbn.
    repeat (case_bool_decide as Hc; clear Hc;
            [by eexists _, ""; split; [reflexivity|] |]).
    eexists _, ("Error " +:+ py_str_int status +:+ ": ").
    split; [reflexivity|]. cbn. by rewrite !string_app_assoc.
  - by apply (bool_decide_unpack _).
  - intros w path c. unfold self, check_result, c. py_unfold.
    destruct (lib (cfg_load_file p path) w) as [st w1]. delegate_to_check.
  - intros w code c. unfold self, check_result, c. py_unfold.
    destruct (lib (cfg_load_string p code) w) as [st w1]. delegate_to_check.
  - intros w name c. unfold self, check_result, c. py_unfold.
    destruct (lib (cfg_get_int p name) w) as [[st v] w1]. delegate_to_check.
  - intros w name c. unfold self, check_result, c. py_unfold.
    destruct (lib (cfg_get_string p name) w) as [[st v] w1]. delegate_to_check.
  - intros w name value c. unfold self, check_result, c. py_unfold.
    destruct (lib (cfg_set_int p name (c_int value)) w) as [st w1].
    delegate_to_check.
  - intros w path c. unfold self, check_result, c. py_unfold.
    destruct (lib (cfg_save_file p path) w) as [st w1]. delegate_to_check.
Qed.

(** ** One handler for every engine failure *)




(** ** Dictionary-style assignment *)

(** C9.  A value that is not an int (nor a bool, which is one) makes
    [__setitem__] raise TypeError as a program that makes no call at all:
    run against any library, the library's state is what it was and the
    list of calls is empty.  For an int, [__setitem__] is [set_int] on
    that int. *)
Theorem setitem_guards_type (name : string) (value : PyValue) (self : Self) :
  match isinstance_int value with
  | None =>
      ConfigLang.__setitem__ name value self
      = Ret (Raised (mkExc TypeError
                       "Only integer values are supported via setitem"), self)
      ∧ ∀ (W : Type) (lib : Library W) (w : W),
          let r := run lib (ConfigLang.__setitem__ name value self) w in
          (∃ msg, result_of r = Raised (mkExc TypeError msg))
          ∧ self_of r = self ∧ world_of r = w ∧ calls_of r = []
  | Some n =>
      ConfigLang.__setitem__ name value = ConfigLang.set_int name n
  end.
Proof.
  unfold ConfigLang.__setitem__.
  destruct (isinstance_int value) as [n|]; [done|].
  split; [done|]. intros W lib w. cbn. eauto.
Qed.

(** ** Release of the engine instance *)

(** The three states of the [_cfg] attribute and what each hook does in
    them. *)
Lemma exit_live {W} (lib : Library W) l h w :
  run lib (hook_body Exit (mkSelf l (Some (Some h)))) w =
  (Returned tt, mkSelf l (Some None), after lib (cfg_destroy (Some h)) w,
   [cfg_destroy (Some h)]).
Proof.
  py_unfold. by destruct (lib (cfg_destroy (Some h)) w) as [[] w1].
Qed.

Lemma del_live {W} (lib : Library W) l h w :
  run lib (hook_body Del (mkSelf l (Some (Some h)))) w =
  (Returned tt, mkSelf l (Some (Some h)), after lib (cfg_destroy (Some h)) w,
   [cfg_destroy (Some h)]).
Proof.
  py_unfold. by destruct (lib (cfg_destroy (Some h)) w) as [[] w1].
Qed.

Lemma hook_idle {W} (lib : Library W) hook self w :
  holds_handle self = false →
  let r := run lib (hook_body hook self) w in
  self_of r = self ∧ world_of r = w ∧ calls_of r = [].
Proof.
  destruct self as [l [[h|]|]]; cbn; intros Hs; [done| |]; by destruct hook.
Qed.

Lemma hooks_idle {W} (lib : Library W) hooks self w :
  holds_handle self = false →
  run_hooks lib hooks self w = (self, w, []).
Proof.
  intros Hs. induction hooks as [|hook hooks IH]; [done|]. cbn [run_hooks].
  destruct (hook_idle lib hook self w Hs) as (-> & -> & ->).
  by rewrite IH.
Qed.

(** From a live handle, a non-empty life releases it exactly once: the
    first hook does, and leaves nothing for the later ones. *)
Lemma lifetime_releases_once {W} (lib : Library W) l h w n finalised :
  calls_of (run_hooks lib (lifetime n finalised) (mkSelf l (Some (Some h))) w)
  = if bool_decide (n = 0%nat) && negb finalised then []
    else [cfg_destroy (Some h)].
Proof.
  unfold lifetime. destruct n as [|n]; cbn [repeat app run_hooks].
  - destruct finalised; [|done]. cbn [run_hooks]. by rewrite del_live.
  - rewrite exit_live. unfold self_of, world_of, calls_of.
    cbn [fst snd]. by rewrite hooks_idle.
Qed.

Lemma quiet_ret {A} (a : A) : quiet (mret a).
Proof. by intros W lib self w. Qed.

Lemma quiet_raise {A} c msg : quiet (@raise A c msg).
Proof. by intros W lib self w. Qed.

Lemma quiet_call c : is_destroy c = false → quiet (call c).
Proof.
  intros Hc W lib self w. unfold call. cbn.
  destruct (lib c w) as [r w1]. unfold destroy_calls. cbn. by rewrite Hc.
Qed.

Ltac quiet_call_tac :=
  lazymatch goal with
  | |- quiet (call ?c) => by apply (quiet_call c)
  end.

Lemma quiet_bind {A B} (m : Py A) (f : A → Py B) :
  quiet m → (∀ a, quiet (f a)) → quiet (m ≫= f).
Proof.
  intros Hm Hf W lib self w. cbn zeta. rewrite run_bind.
  specialize (Hm W lib self w). cbn zeta in Hm.
  destruct (run lib (m self) w) as [[[[a|e] s1] w1] t1];
    unfold self_of, calls_of in *; cbn in Hm; destruct Hm as [-> Ht1]; [|done].
  specialize (Hf a W lib self w1). cbn zeta in Hf.
  destruct (run lib (f a self) w1) as [[[r s2] w2] t2].
  unfold self_of, calls_of in *. cbn in *. destruct Hf as [-> Ht2].
  split; [done|]. unfold destroy_calls in *.
  by rewrite List.filter_app, Ht1, Ht2.
Qed.

Lemma quiet_find_in_dir path lib_names :
  quiet (ConfigLang.find_in_dir path lib_names).
Proof.
  induction lib_names as [|n rest IH]; [apply quiet_ret|]. cbn.
  apply quiet_bind; [quiet_call_tac|]. intros lib_path.
  apply quiet_bind; [quiet_call_tac|]. intros [|]; [apply quiet_ret|done].
Qed.

Lemma quiet_find_in_dirs search_paths lib_names :
  quiet (ConfigLang.find_in_dirs search_paths lib_names).
Proof.
  induction search_paths as [|d rest IH]; [apply quiet_ret|]. cbn.
  apply quiet_bind; [apply quiet_find_in_dir|].
  intros [lib_path|]; [apply quiet_ret|done].
Qed.

Lemma quiet_find_library : quiet ConfigLang._find_library.
Proof.
  unfold ConfigLang._find_library.
  apply quiet_bind; [quiet_call_tac|]. intros system.
  apply quiet_bind; [quiet_call_tac|]. intros here.
  apply quiet_bind; [quiet_call_tac|]. intros cwd.
  apply quiet_bind; [apply quiet_find_in_dirs|].
  intros [lib_path|]; [apply quiet_ret|apply quiet_raise].
Qed.

Lemma quiet_self_lib : quiet self_lib.
Proof. by intros W lib [[lib_path|] cfg] w. Qed.

Lemma quiet_declare symbol : quiet (ConfigLang.declare symbol).
Proof.
  unfold ConfigLang.declare.
  apply quiet_bind; [apply quiet_self_lib|]. intros lib_path.
  apply quiet_bind; [quiet_call_tac|].
  intros [msg|]; [apply quiet_raise|apply quiet_ret].
Qed.

Lemma quiet_setup_functions : quiet ConfigLang._setup_functions.
Proof.
  unfold ConfigLang._setup_functions.
  repeat (apply quiet_bind; [apply quiet_declare|intros _]).
  apply quiet_declare.
Qed.

(** [__init__] step by step: the existence test, the load, the nine
    declarations, [cfg_create]. *)
Lemma init_path_run {W} (lib : Library W) path w :
  run lib (ConfigLang.__init__ (Some path) new_object) w =
  let '(present, w1) := lib (os_path_exists path) w in
  if negb present
  then (Raised (mkExc FileNotFoundError
                  ("ConfigLang library not found: " +:+ path)),
        new_object, w1, [os_path_exists path])
  else
    let '(opened, w2) := lib (ctypes_CDLL path) w1 in
    match opened with
    | Raised e =>
        (Raised e, new_object, w2, [os_path_exists path; ctypes_CDLL path])
    | Returned _ =>
        match run lib (ConfigLang._setup_functions (mkSelf (Some path) None))
                w2 with
        | (Raised e, s, w3, t) =>
            (Raised e, s, w3, os_path_exists path :: ctypes_CDLL path :: t)
        | (Returned _, s, w3, t) =>
            let '(p, w4) := lib cfg_create w3 in
            (if truthy p then Returned tt
             else Raised (mkExc ConfigLangError
                            "Failed to create ConfigLang instance"),
             mkSelf (_lib s) (Some p), w4,
             os_path_exists path :: ctypes_CDLL path :: t ++ [cfg_create])
        end
    end.
Proof.
  unfold ConfigLang.__init__. rewrite run_bind. cbn [run mret Py_ret].
  rewrite run_bind. unfold call at 1. cbn [run].
  destruct (lib (os_path_exists path) w) as [[|] w1]; cbn [negb]; [|done].
  rewrite run_bind. unfold call at 1. cbn [run].
  destruct (lib (ctypes_CDLL path) w1) as [[[]|e] w2]; [|done].
  rewrite run_bind. unfold set_self_lib at 1. cbn [run _cfg new_object].
  rewrite run_bind.
  destruct (run lib (ConfigLang._setup_functions _) w2)
    as [[[[[]|e] s] w3] t]; [|done].
  py_unfold. by destruct (lib cfg_create w3) as [[h|] w4].
Qed.

(** Without a path, [__init__] is the search followed by [__init__] with
    the path found. *)
Lemma init_search_run {W} (lib : Library W) w :
  run lib (ConfigLang.__init__ None new_object) w =
  match run lib (ConfigLang._find_library new_object) w with
  | (Returned path, s, w1, t1) =>
      let '(r, w2, t2) := run lib (ConfigLang.__init__ (Some path) s) w1 in
      (r, w2, t1 ++ t2)
  | (Raised e, s, w1, t1) => (Raised e, s, w1, t1)
  end.
Proof.
  unfold ConfigLang.__init__. rewrite run_bind.
  destruct (run lib (ConfigLang._find_library new_object) w)
    as [[[[path|e] s] w1] t1]; [|done].
  rewrite (run_bind lib (mret path : Py string)). cbn [run mret Py_ret].
  by destruct (run lib _ w1) as [[r w2] t2].
Qed.

(** What [__init__] leaves behind: it returns only with a handle stored
    in [_cfg], and it never calls [cfg_destroy]. *)
Lemma init_outcome {W} (lib : Library W) lib_path w :
  let r := run lib (ConfigLang.__init__ lib_path new_object) w in
  destroy_calls (calls_of r) = []
  ∧ match result_of r with
    | Returned _ => ∃ l h, self_of r = mkSelf l (Some (Some h))
    | Raised _ => holds_handle (self_of r) = false
    end.
Proof.
  cbn zeta.
  assert (Hpath : ∀ path w1,
            let r := run lib (ConfigLang.__init__ (Some path) new_object) w1 in
            destroy_calls (calls_of r) = []
            ∧ match result_of r with
              | Returned _ => ∃ l h, self_of r = mkSelf l (Some (Some h))
              | Raised _ => holds_handle (self_of r) = false
              end).
  { intros path w1. cbn zeta. rewrite init_path_run.
    destruct (lib (os_path_exists path) w1) as [[|] w2]; cbn [negb]; [|done].
    destruct (lib (ctypes_CDLL path) w2) as [[[]|e] w3]; [|done].
    pose proof (quiet_setup_functions W lib (mkSelf (Some path) None) w3)
      as Hs.
    cbn zeta in Hs. unfold self_of, calls_of in Hs.
    destruct (run lib (ConfigLang._setup_functions _) w3)
      as [[[[[]|e] s4] w4] t4]; cbn in Hs; destruct Hs as [-> Ht4];
      [|done].
    destruct (lib cfg_create w4) as [[h|] w5];
      unfold destroy_calls, result_of, self_of, calls_of in *; cbn;
      rewrite List.filter_app, Ht4; cbn; eauto. }
  destruct lib_path as [path|]; [apply Hpath|].
  rewrite init_search_run.
  pose proof (quiet_find_library W lib new_object w) as Hq.
  cbn zeta in Hq. unfold self_of, calls_of in Hq.
  destruct (run lib (ConfigLang._find_library new_object) w)
    as [[[[path|e] s1] w1] t1]; cbn in Hq; destruct Hq as [-> Ht1]; [|done].
  specialize (Hpath path w1). cbn zeta in Hpath.
  destruct (run lib (ConfigLang.__init__ (Some path) new_object) w1)
    as [[[r s2] w2] t2].
  unfold destroy_calls, result_of, self_of, calls_of in *. cbn in *.
  destruct Hpath as [Ht2 Hr]. by rewrite List.filter_app, Ht1, Ht2.
Qed.

(** From a live handle, any sequence of hooks: every [__del__] before the
    first [__exit__] releases, the first [__exit__] releases, and nothing
    after it does. *)
Lemma hooks_from_live {W} (lib : Library W) l h hooks w :
  calls_of (run_hooks lib hooks (mkSelf l (Some (Some h))) w)
  = repeat (cfg_destroy (Some h)) (releases hooks).
Proof.
  revert w. induction hooks as [|[|] hooks IH]; intros w; [done| |];
    cbn [run_hooks releases repeat].
  - rewrite exit_live. unfold self_of, world_of, calls_of.
    cbn [fst snd]. by rewrite hooks_idle.
  - rewrite del_live. unfold self_of, world_of, calls_of in *.
    cbn [fst snd]. specialize (IH (after lib (cfg_destroy (Some h)) w)).
    destruct (run_hooks lib hooks _ _) as [[s' w'] calls].
    cbn [fst snd] in *. by rewrite IH.
Qed.

Lemma releases_after_exit (before later : list Hook) :
  releases (before ++ Exit :: later) = releases (before ++ [Exit]).
Proof.
  induction before as [|[|] before IH]; [done|done|]. cbn. by rewrite IH.
Qed.

Lemma releases_at_most_once (hooks : list Hook) :
  (releases hooks ≤ 1)%nat
  ↔ hooks = [] ∨ hooks = [Del] ∨ ∃ rest, hooks = Exit :: rest.
Proof.
  split.
  - destruct hooks as [|[|] [|[|] rest]]; cbn; intros Hn; eauto; lia.
  - intros [->|[->|[rest ->]]]; cbn; lia.
Qed.

Lemma releases_lifetime (n : nat) (finalised : bool) :
  releases (lifetime n finalised)
  = if bool_decide (n = 0%nat) && negb finalised then 0%nat else 1%nat.
Proof. unfold lifetime. by destruct n, finalised. Qed.

(** C7, amended.  [__init__] never calls [cfg_destroy]; it returns only
    with a handle in [_cfg], and when it raised no hook ever calls
    [cfg_destroy].  After it returned, over any sequence of [__exit__] and
    [__del__] the calls of [cfg_destroy] are all on that handle and as
    many as [releases] counts: one for the first [__exit__], which clears
    the handle so that nothing after it calls [cfg_destroy] again, and
    one for each [__del__] before it, which leaves the handle in place.
    So [cfg_destroy] is called at most once exactly when no hook follows a
    [__del__] that found the handle (the sequence is empty, a single
    [__del__], or starts with [__exit__]); at least once as soon as one
    hook runs; and exactly once over any number of [__exit__] followed by
    at most one [__del__], if not empty. *)
Theorem release_count (W : Type) (lib : Library W) (w0 : W)
    (lib_path : option string) (hooks : list Hook) :
  let r := run lib (ConfigLang.__init__ lib_path new_object) w0 in
  let calls := calls_of (run_hooks lib hooks (self_of r) (world_of r)) in
  destroy_calls (calls_of r) = []
  ∧ match result_of r with
    | Returned _ =>
        ∃ h, _cfg (self_of r) = Some (Some h)
             ∧ calls = repeat (cfg_destroy (Some h)) (releases hooks)
    | Raised _ => calls = []
    end
  ∧ ((releases hooks ≤ 1)%nat
     ↔ hooks = [] ∨ hooks = [Del] ∨ ∃ rest, hooks = Exit :: rest)
  ∧ (releases hooks = 0%nat ↔ hooks = [])
  ∧ (∀ before later,
       releases (before ++ Exit :: later) = releases (before ++ [Exit]))
  ∧ (∀ n finalised,
       releases (lifetime n finalised)
       = if bool_decide (n = 0%nat) && negb finalised then 0%nat else 1%nat).
Proof.
  cbn zeta.
  destruct (init_outcome lib lib_path w0) as [Hinit Hres].
  split; [done|]. split.
  { destruct (run lib (ConfigLang.__init__ lib_path new_object) w0)
      as [[[[[]|e] s] w] t]; unfold result_of, self_of, world_of in *;
      cbn [fst snd] in *.
    - destruct Hres as (l & h & ->). exists h. split; [done|].
      apply hooks_from_live.
    - by rewrite hooks_idle. }
  split; [apply releases_at_most_once|]. split.
  { by destruct hooks as [|[|] rest]. }
  split; [apply releases_after_exit|apply releases_lifetime].
Qed.

(** C7, a [__del__] that is followed by another hook: after a
    construction that succeeded, [__del__] then [__exit__] call
    [cfg_destroy] twice on the same handle. *)
Lemma release_twice_after_del :
  let r := run Engine.library (ConfigLang.__init__ None new_object)
             fresh_host in
  result_of r = Returned tt
  ∧ destroy_calls
      (calls_of (run_hooks Engine.library [Del; Exit] (self_of r) (world_of r)))
    = [cfg_destroy (Some 1%positive); cfg_destroy (Some 1%positive)].
Proof. vm_compute. done. Qed.

(** ** The binding over the engine *)

#[global] Arguments Engine.on_instance : simpl never.
#[global] Arguments Engine.last_error : simpl never.
#[global] Arguments Engine.lookup : simpl never.

Lemma on_instance_live {A} h (null : A) op w i :
  Engine.instances w !! h = Some i →
  Engine.on_instance (Some h) null op w =
  ((op i).1,
   Engine.set_instances (<[h := (op i).2]> (Engine.instances w)) w).
Proof. intros Hi. unfold Engine.on_instance. by rewrite Hi. Qed.

Lemma last_error_updated h i m w :
  Engine.last_error (Some h) (Engine.set_instances (<[h := i]> m) w) =
  Engine.inst_last_error i.
Proof. unfold Engine.last_error. cbn. by rewrite lookup_insert_eq. Qed.

Lemma env_of_updated h i m w :
  env_of (Engine.set_instances (<[h := i]> m) w) h = Some (Engine.inst_env i).
Proof. unfold env_of. cbn. by rewrite lookup_insert_eq. Qed.

Lemma lookup_name name env v :
  Engine.lookup name env = Some v → Engine.var_name v = name.
Proof.
  unfold Engine.lookup. intros H. apply List.find_some in H as [_ H].
  by apply bool_decide_eq_true in H.
Qed.

Lemma lookup_store_eq v env :
  Engine.lookup (Engine.var_name v) (Engine.store v env) = Some v.
Proof.
  unfold Engine.lookup.
  induction env as [|u env IH]; cbn.
  - by rewrite bool_decide_eq_true_2.
  - case_bool_decide as Hu; cbn.
    + by rewrite bool_decide_eq_true_2.
    + by rewrite bool_decide_eq_false_2.
Qed.

Lemma lookup_store_ne name v env :
  name ≠ Engine.var_name v →
  Engine.lookup name (Engine.store v env) = Engine.lookup name env.
Proof.
  intros Hne. unfold Engine.lookup.
  induction env as [|u env IH]; cbn.
  - by rewrite bool_decide_eq_false_2.
  - case_bool_decide as Hu; cbn.
    + rewrite bool_decide_eq_false_2 by done.
      by rewrite bool_decide_eq_false_2 by congruence.
    + by rewrite IH.
Qed.

(** Settle the tests [_check_error] makes on a status that is known. *)
Ltac decide_status :=
  repeat match goal with
         | |- context [bool_decide (?a = ?b)] =>
             first [ rewrite (bool_decide_eq_true_2 (a = b)) by reflexivity
                   | rewrite (bool_decide_eq_false_2 (a = b)) by (by compute) ]
         end;
  cbn.

(** Running the operations against a live instance: the result is read
    off the engine's answer, and the instance is the one the engine
    leaves. *)
Lemma run_get_int w l h i name :
  Engine.instances w !! h = Some i →
  let r := run Engine.library
             (ConfigLang.get_int name (mkSelf l (Some (Some h)))) w in
  let a := Engine.get_int (c_str name) i in
  result_of r = status_result a.1.1 (Engine.inst_last_error a.2) (c_int a.1.2)
  ∧ Engine.instances (world_of r) !! h = Some a.2.
Proof.
  intros Hi. py_unfold. rewrite (on_instance_live _ _ _ _ _ Hi).
  destruct (Engine.get_int (c_str name) i) as [[st v] i'].
  cbn. unfold status_result.
  case_bool_decide; cbn; [by rewrite lookup_insert_eq|].
  unfold raised_for.
  repeat (destruct (bool_decide _)); cbn;
    by rewrite last_error_updated, lookup_insert_eq.
Qed.

Lemma run_get_string w l h i name :
  Engine.instances w !! h = Some i →
  let r := run Engine.library
             (ConfigLang.get_string name (mkSelf l (Some (Some h)))) w in
  let a := Engine.get_string (c_str name) i in
  result_of r = status_result a.1.1 (Engine.inst_last_error a.2) a.1.2
  ∧ Engine.instances (world_of r) !! h = Some a.2.
Proof.
  intros Hi. py_unfold. rewrite (on_instance_live _ _ _ _ _ Hi).
  destruct (Engine.get_string (c_str name) i) as [[st v] i'].
  cbn. unfold status_result.
  case_bool_decide; cbn; [by rewrite lookup_insert_eq|].
  unfold raised_for.
  repeat (destruct (bool_decide _)); cbn;
    by rewrite last_error_updated, lookup_insert_eq.
Qed.

Lemma run_set_int w l h i name value :
  Engine.instances w !! h = Some i →
  let r := run Engine.library
             (ConfigLang.set_int name value (mkSelf l (Some (Some h)))) w in
  let a := Engine.set_int (c_str name) (c_int value) i in
  result_of r = status_result a.1 (Engine.inst_last_error a.2) tt
  ∧ Engine.instances (world_of r) !! h = Some a.2.
Proof.
  intros Hi. py_unfold. rewrite (on_instance_live _ _ _ _ _ Hi).
  destruct (Engine.set_int (c_str name) (c_int value) i) as [st i'].
  cbn. unfold status_result.
  case_bool_decide; cbn; [by rewrite lookup_insert_eq|].
  unfold raised_for.
  repeat (destruct (bool_decide _)); cbn;
    by rewrite last_error_updated, lookup_insert_eq.
Qed.

Lemma run_load_string w l h i code :
  Engine.instances w !! h = Some i →
  let r := run Engine.library
             (ConfigLang.load_string code (mkSelf l (Some (Some h)))) w in
  let a := Engine.load_string (c_str code) i in
  result_of r = status_result a.1 (Engine.inst_last_error a.2) tt
  ∧ Engine.instances (world_of r) !! h = Some a.2.
Proof.
  intros Hi. py_unfold. rewrite (on_instance_live _ _ _ _ _ Hi).
  destruct (Engine.load_string (c_str code) i) as [st i'].
  cbn. unfold status_result.
  case_bool_decide; cbn; [by rewrite lookup_insert_eq|].
  unfold raised_for.
  repeat (destruct (bool_decide _)); cbn;
    by rewrite last_error_updated, lookup_insert_eq.
Qed.

Lemma c_str_no_nul (s : string) :
  has_char "000"%char s = false → c_str s = s.
Proof.
  induction s as [|c s IH]; [done|]. cbn.
  case_bool_decide; cbn; [done|]. intros Hs. by rewrite IH.
Qed.

Lemma c_int_in_range (value : Z) :
  - 2 ^ 31 ≤ value < 2 ^ 31 → c_int value = value.
Proof. intros Hv. unfold c_int. rewrite Z.mod_small; lia. Qed.

Lemma c_int_bounds (n : Z) : - 2 ^ 31 ≤ c_int n < 2 ^ 31.
Proof.
  unfold c_int. pose proof (Z.mod_pos_bound (n + 2 ^ 31) (2 ^ 32)). lia.
Qed.

Lemma c_int_idempotent (n : Z) : c_int (c_int n) = c_int n.
Proof. apply c_int_in_range, c_int_bounds. Qed.

(** C4, amended.  On a live instance, with the name as the engine reads
    it (the bytes before the first NUL: the name itself when it has no
    NUL): [get_int] raises VariableNotFoundError when the environment has
    no variable of that name, TypeMismatchError when the variable holds a
    string, and otherwise returns the integer as the 32-bit cell holds it,
    which is the stored integer when that is in the signed 32-bit range;
    [get_string] raises VariableNotFoundError for a missing name,
    TypeMismatchError when the variable holds an integer, and returns the
    string otherwise. *)
Theorem getters_by_kind (w : Engine.World) (l : option string) (h : handle)
    (i : Engine.Instance) (name : string) :
  Engine.instances w !! h = Some i →
  let self := mkSelf l (Some (Some h)) in
  let got_int := result_of (run Engine.library (ConfigLang.get_int name self) w) in
  let got_string :=
    result_of (run Engine.library (ConfigLang.get_string name self) w) in
  let seen := c_str name in
  (has_char "000"%char name = false → seen = name)
  ∧ match Engine.lookup seen (Engine.inst_env i) with
    | None =>
        got_int = Raised (not_found seen) ∧ got_string = Raised (not_found seen)
    | Some v =>
        match Engine.var_value v with
        | Engine.VInt n =>
            got_int = Returned (c_int n)
            ∧ (- 2 ^ 31 ≤ n < 2 ^ 31 → got_int = Returned n)
            ∧ got_string = Raised type_mismatch
        | Engine.VStr s =>
            got_int = Raised type_mismatch ∧ got_string = Returned s
        end
    end.
Proof.
  intros Hi. cbn zeta. split; [apply c_str_no_nul|].
  destruct (run_get_int w l h i name Hi) as [-> _].
  destruct (run_get_string w l h i name Hi) as [-> _].
  unfold Engine.get_int, Engine.get_string.
  destruct (Engine.lookup (c_str name) (Engine.inst_env i)) as [v|]; [|done].
  destruct (Engine.var_value v) as [n|s]; [|done].
  cbn. repeat split. intros Hn. by rewrite c_int_in_range.
Qed.

Lemma getters_by_kind_witness :
  Engine.instances sample_world !! 1%positive = Some sample_instance
  ∧ result_of (run Engine.library (ConfigLang.get_int "x" sample_self) sample_world)
    = Returned 10
  ∧ result_of (run Engine.library (ConfigLang.get_string "x" sample_self)
                 sample_world)
    = Raised type_mismatch.
Proof.
  split; [reflexivity|].
  pose proof (proj2 (getters_by_kind sample_world
                       (Some "/usr/lib/libconfiglang.so") 1%positive
                       sample_instance "x" eq_refl)) as H.
  exact (conj (proj1 H) (proj2 (proj2 H))).
Defined.

(** C4, where the two readings differ.  A stored integer that does not
    fit 32 bits does not come back: after loading [set big = 5000000000]
    the variable holds 5000000000 and [get_int] returns 705032704.  A
    name with a NUL inside is not the name looked up: no variable has the
    name [x], NUL, [y], and [get_int] of it returns the value of [x]. *)
Lemma get_int_reads_32_bits :
  let loaded := run Engine.library
                  (ConfigLang.load_string "set big = 5000000000" sample_self)
                  sample_world in
  result_of loaded = Returned tt
  ∧ Engine.var_value
      <$> (env_of (world_of loaded) 1%positive ≫= Engine.lookup "big")
    = Some (Engine.VInt 5000000000)
  ∧ result_of (run Engine.library (ConfigLang.get_int "big" sample_self)
                 (world_of loaded))
    = Returned 705032704
  ∧ Engine.lookup x_nul_y sample_env = None
  ∧ result_of (run Engine.library (ConfigLang.get_int x_nul_y sample_self)
                 sample_world)
    = Returned 10.
Proof. vm_compute. done. Qed.

Lemma store_length_existing name v env old :
  Engine.lookup name env = Some old → Engine.var_name v = name →
  length (Engine.store v env) = length env.
Proof.
  unfold Engine.lookup. intros Hl <-.
  induction env as [|u env IH]; [done|]. cbn in *.
  case_bool_decide; [done|]. cbn. f_equal. by apply IH.
Qed.

Lemma isinstance_own_class c msg : isinstance (mkExc c msg) c = true.
Proof. by destruct c. Qed.

(** C8, amended.  On a live instance, with the name as the engine reads
    it (the bytes before the first NUL: the name itself when it has no
    NUL), [get] returns the value of an existing variable whatever its
    kind: the integer as the 32-bit cell of [get_int] holds it, which is
    the stored integer when that is in the signed 32-bit range, or, when
    [get_int] raised TypeMismatchError, the string [get_string] returns;
    it raises VariableNotFoundError when the name is missing, and never
    raises TypeMismatchError.  [__getitem__] is [get]. *)
Theorem get_any_kind (w : Engine.World) (l : option string) (h : handle)
    (i : Engine.Instance) (name : string) :
  Engine.instances w !! h = Some i →
  let self := mkSelf l (Some (Some h)) in
  let got := result_of (run Engine.library (ConfigLang.get name self) w) in
  let seen := c_str name in
  ConfigLang.__getitem__ name = ConfigLang.get name
  ∧ got = match Engine.lookup seen (Engine.inst_env i) with
          | None => Raised (not_found seen)
          | Some v =>
              match Engine.var_value v with
              | Engine.VInt n => Returned (PyInt (c_int n))
              | Engine.VStr s => Returned (PyStr s)
              end
          end
  ∧ (∀ e, got = Raised e → exc_class e ≠ TypeMismatchError)
  ∧ (∀ v n, Engine.lookup seen (Engine.inst_env i) = Some v →
            Engine.var_value v = Engine.VInt n →
            - 2 ^ 31 ≤ n < 2 ^ 31 → got = Returned (PyInt n))
  ∧ (has_char "000"%char name = false → seen = name).
Proof.
  intros Hi. cbn zeta.
  assert (Hgot : result_of (run Engine.library
                   (ConfigLang.get name (mkSelf l (Some (Some h)))) w)
                 = match Engine.lookup (c_str name) (Engine.inst_env i) with
                   | None => Raised (not_found (c_str name))
                   | Some v =>
                       match Engine.var_value v with
                       | Engine.VInt n => Returned (PyInt (c_int n))
                       | Engine.VStr s => Returned (PyStr s)
                       end
                   end).
  { py_unfold. rewrite (on_instance_live _ _ _ _ _ Hi).
    unfold Engine.get_int.
    destruct (Engine.lookup (c_str name) (Engine.inst_env i)) as [v|] eqn:Hl;
      cbn; [destruct (Engine.var_value v) as [n|s] eqn:Hv|]; cbn;
      decide_status.
    - done.
    - rewrite last_error_updated. cbn. rewrite isinstance_own_class. cbn.
      rewrite (on_instance_live _ _ _ _ _ (lookup_insert_eq _ _ _)).
      unfold Engine.get_string. cbn. rewrite Hl, Hv. cbn. by decide_status.
    - by rewrite last_error_updated. }
  split; [done|]. split; [done|]. rewrite Hgot. repeat apply conj.
  - intros e.
    destruct (Engine.lookup (c_str name) (Engine.inst_env i)) as [v|];
      [by destruct (Engine.var_value v)|].
    by intros [= <-].
  - intros v n -> -> Hn. by rewrite c_int_in_range.
  - apply c_str_no_nul.
Qed.

Lemma get_any_kind_witness :
  Engine.instances sample_world !! 1%positive = Some sample_instance
  ∧ result_of (run Engine.library (ConfigLang.get "name" sample_self)
                 sample_world)
    = Returned (PyStr "Hello").
Proof.
  split; [reflexivity|].
  exact (proj1 (proj2 (get_any_kind sample_world
                         (Some "/usr/lib/libconfiglang.so") 1%positive
                         sample_instance "name" eq_refl))).
Defined.

(** C8, where the two readings differ.  A stored integer that does not
    fit 32 bits does not come back: after loading [set wide = 4294967296]
    the variable holds 4294967296 and [get] returns 0.  A name with a NUL
    inside is not the name looked up: no variable has the name [name],
    NUL, [!], and [get] of it returns the value of [name] instead of
    raising VariableNotFoundError. *)
Lemma get_wraps_stored_integer :
  let loaded := run Engine.library
                  (ConfigLang.load_string "set wide = 4294967296" sample_self)
                  sample_world in
  result_of loaded = Returned tt
  ∧ Engine.var_value
      <$> (env_of (world_of loaded) 1%positive ≫= Engine.lookup "wide")
    = Some (Engine.VInt 4294967296)
  ∧ result_of (run Engine.library (ConfigLang.get "wide" sample_self)
                 (world_of loaded))
    = Returned (PyInt 0)
  ∧ Engine.lookup name_nul sample_env = None
  ∧ result_of (run Engine.library (ConfigLang.get name_nul sample_self)
                 sample_world)
    = Returned (PyStr "Hello").
Proof. vm_compute. done. Qed.

(** C2, amended.  On a live instance, with the name as the engine reads
    it (the bytes before the first NUL: the name itself when it has no
    NUL), [set_int name value]: raises VariableNotFoundError when no
    variable has that name, and the environment stays as it was (no
    variable is created); raises ConstViolationError when the variable is
    const, the environment stays as it was and [get_int] gives afterwards
    what it gave before; raises TypeMismatchError when the variable is not
    const and holds a string, the environment unchanged; and otherwise
    returns, with the variable holding the value reduced to a signed
    32-bit integer (the value itself when it is in that range), still not
    const, in its place, and every other variable as before. *)
Theorem set_int_by_binding (w : Engine.World) (l : option string) (h : handle)
    (i : Engine.Instance) (name : string) (value : Z) :
  Engine.instances w !! h = Some i →
  let self := mkSelf l (Some (Some h)) in
  let env := Engine.inst_env i in
  let r := run Engine.library (ConfigLang.set_int name value self) w in
  let before := result_of (run Engine.library (ConfigLang.get_int name self) w) in
  let again :=
    result_of (run Engine.library (ConfigLang.get_int name self) (world_of r)) in
  let seen := c_str name in
  (has_char "000"%char name = false → seen = name)
  ∧ match Engine.lookup seen env with
    | None =>
        result_of r = Raised (not_found seen)
        ∧ env_of (world_of r) h = Some env
    | Some v =>
        if Engine.var_is_const v then
          result_of r = Raised (const_violation seen)
          ∧ env_of (world_of r) h = Some env
          ∧ again = before
        else
          match Engine.var_value v with
          | Engine.VStr _ =>
              result_of r = Raised type_mismatch
              ∧ env_of (world_of r) h = Some env
          | Engine.VInt _ =>
              let stored :=
                Engine.mkVar seen (Engine.VInt (c_int value)) false in
              result_of r = Returned tt
              ∧ env_of (world_of r) h = Some (Engine.store stored env)
              ∧ length (Engine.store stored env) = length env
              ∧ Engine.lookup seen (Engine.store stored env) = Some stored
              ∧ (∀ other, other ≠ seen →
                   Engine.lookup other (Engine.store stored env)
                   = Engine.lookup other env)
              ∧ again = Returned (c_int value)
              ∧ (- 2 ^ 31 ≤ value < 2 ^ 31 →
                 c_int value = value ∧ again = Returned value)
          end
    end.
Proof.
  intros Hi. cbn zeta. split; [apply c_str_no_nul|].
  destruct (run_set_int w l h i name value Hi) as [-> Hi'].
  destruct (run_get_int _ l h _ name Hi') as [-> _].
  destruct (run_get_int w l h i name Hi) as [-> _].
  unfold env_of. rewrite Hi'. clear Hi'.
  unfold Engine.set_int, Engine.get_int.
  destruct (Engine.lookup (c_str name) (Engine.inst_env i)) as [v|] eqn:Hl;
    [|done].
  pose proof (lookup_name _ _ _ Hl) as Hn.
  destruct (Engine.var_is_const v) eqn:Hc.
  - cbn. rewrite Hl. by destruct (Engine.var_value v).
  - destruct (Engine.var_value v) as [n|s] eqn:Hv; [|done].
    rewrite Hn. cbn.
    set (stored := Engine.mkVar (c_str name) (Engine.VInt (c_int value)) false).
    assert (Hs : Engine.lookup (c_str name)
                   (Engine.store stored (Engine.inst_env i))
                 = Some stored) by apply (lookup_store_eq stored).
    rewrite Hs. cbn. rewrite c_int_idempotent.
    repeat apply conj; try done.
    + by eapply store_length_existing.
    + intros other Hne. by apply lookup_store_ne.
    + intros Hr. by rewrite c_int_in_range.
Qed.

Lemma set_int_by_binding_witness :
  Engine.instances sample_world !! 1%positive = Some sample_instance
  ∧ let r := run Engine.library (ConfigLang.set_int "max" 200 sample_self)
               sample_world in
    result_of r = Raised (const_violation "max")
    ∧ env_of (world_of r) 1%positive = Some sample_env
    ∧ result_of (run Engine.library (ConfigLang.get_int "max" sample_self)
                   (world_of r))
      = result_of (run Engine.library (ConfigLang.get_int "max" sample_self)
                     sample_world).
Proof.
  split; [reflexivity|].
  exact (proj2 (set_int_by_binding sample_world
                  (Some "/usr/lib/libconfiglang.so") 1%positive
                  sample_instance "max" 200 eq_refl)).
Defined.

(** C2, where the two readings differ.  A value that does not fit 32
    bits is not the value stored: [set_int] of [x] and 2147483648
    returns, and the variable then holds -2147483648.  A name with a NUL
    inside is not the name looked up: no variable has the name [x], NUL,
    [y], and [set_int] of it returns, having overwritten [x]. *)
Lemma set_int_stores_32_bits :
  let r := run Engine.library (ConfigLang.set_int "x" 2147483648 sample_self)
             sample_world in
  let r' := run Engine.library (ConfigLang.set_int x_nul_y 7 sample_self)
              sample_world in
  result_of r = Returned tt
  ∧ Engine.var_value
      <$> (env_of (world_of r) 1%positive ≫= Engine.lookup "x")
    = Some (Engine.VInt (-2147483648))
  ∧ Engine.lookup x_nul_y sample_env = None
  ∧ result_of r' = Returned tt
  ∧ Engine.var_value
      <$> (env_of (world_of r') 1%positive ≫= Engine.lookup "x")
    = Some (Engine.VInt 7).
Proof. vm_compute. done. Qed.

(** ** The example of the module docstring *)

Lemma example_program_loads :
  Engine.load_string example_program Engine.empty_instance
  = (ERR_CFG_OK, Engine.mkInstance example_env "").
Proof. vm_compute. reflexivity. Qed.

Lemma methods_keep_self {W} (lib : Library W) self w code name :
  self_of (run lib (ConfigLang.load_string code self) w) = self
  ∧ self_of (run lib (ConfigLang.get_int name self) w) = self
  ∧ self_of (run lib (ConfigLang.get_string name self) w) = self.
Proof.
  destruct self as [l [p|]]; [|done]. py_unfold. repeat apply conj.
  - destruct (lib (cfg_load_string p code) w) as [st w1]. cbn.
    case_bool_decide; cbn; [done|].
    destruct (lib (cfg_get_error p) w1) as [m w2]. cbn.
    by repeat (destruct (bool_decide _)).
  - destruct (lib (cfg_get_int p name) w) as [[st v] w1]. cbn.
    case_bool_decide; cbn; [done|].
    destruct (lib (cfg_get_error p) w1) as [m w2]. cbn.
    by repeat (destruct (bool_decide _)).
  - destruct (lib (cfg_get_string p name) w) as [[st v] w1]. cbn.
    case_bool_decide; cbn; [done|].
    destruct (lib (cfg_get_error p) w1) as [m w2]. cbn.
    by repeat (destruct (bool_decide _)).
Qed.

(** C5.  On an instance the engine has just created, in any state of the
    library: [load_string] of the two-line program returns; then
    [get_int "x"] returns 10; then [get_string "name"] returns "Hello";
    none of the three changes [self].  And the whole session of the
    docstring, constructor included, run on a host that has the library,
    returns the pair. *)
Theorem docstring_example (w : Engine.World) (l : option string) :
  let created := Engine.library cfg_create w in
  let self := mkSelf l (Some created.1) in
  let r1 := run Engine.library (ConfigLang.load_string example_program self)
              created.2 in
  let r2 := run Engine.library (ConfigLang.get_int "x" self) (world_of r1) in
  let r3 := run Engine.library (ConfigLang.get_string "name" self)
              (world_of r2) in
  result_of r1 = Returned tt
  ∧ result_of r2 = Returned 10
  ∧ result_of r3 = Returned "Hello"
  ∧ self_of r1 = self ∧ self_of r2 = self ∧ self_of r3 = self
  ∧ result_of (run Engine.library (example_session new_object) fresh_host)
    = Returned (10, "Hello").
Proof.
  cbn zeta.
  set (h := Engine.next_handle w).
  change (Engine.library cfg_create w) with (Engine.create w).
  unfold Engine.create. fold h. cbn [fst snd].
  set (w1 := Engine.mkWorld _ _ _ _ _ _ _).
  assert (H1 : Engine.instances w1 !! h = Some Engine.empty_instance)
    by apply lookup_insert_eq.
  destruct (run_load_string w1 l h _ example_program H1) as [R1 H2].
  change (c_str example_program) with example_program in R1, H2.
  rewrite example_program_loads in R1, H2. cbn [fst snd] in R1, H2.
  destruct (run_get_int _ l h _ "x" H2) as [R2 H3].
  destruct (run_get_string _ l h _ "name" H3) as [R3 _].
  repeat apply conj.
  - exact R1.
  - etrans; [exact R2|reflexivity].
  - etrans; [exact R3|reflexivity].
  - apply (proj1 (methods_keep_self _ _ _ example_program "")).
  - apply (proj1 (proj2 (methods_keep_self _ _ _ "" "x"))).
  - apply (proj2 (proj2 (methods_keep_self _ _ _ "" "name"))).
  - vm_compute. reflexivity.
Qed.

(** ** Round trip: what the serializer writes, the lexer reads *)

Lemma lex_steps_app st p a b :
  lex_steps st p (a ++ b) =
  match lex_steps st p a with
  | inl e => inl e
  | inr (t1, s1) =>
      match lex_steps s1 (advance_all p a) b with
      | inl e => inl e
      | inr (t2, s2) => inr (t1 ++ t2, s2)
      end
  end.
Proof.
  revert st p. induction a as [|c a IH]; intros st p; cbn.
  - by destruct (lex_steps st p b) as [e|[t2 s2]].
  - destruct (Engine.lex_step st p c) as [e|[ts st']]; [done|].
    rewrite IH. destruct (lex_steps st' _ a) as [e|[t1 s1]]; [done|].
    destruct (lex_steps s1 _ b) as [e|[t2 s2]]; [done|].
    by rewrite app_assoc.
Qed.

Lemma lex_from_app st p a b :
  Engine.lex_from st p (a ++ b) =
  match lex_steps st p a with
  | inl e => inl e
  | inr (t1, s1) =>
      match Engine.lex_from s1 (advance_all p a) b with
      | inl e => inl e
      | inr more => inr (t1 ++ more)
      end
  end.
Proof.
  revert st p. induction a as [|c a IH]; intros st p; cbn.
  - by destruct (Engine.lex_from st p b).
  - destruct (Engine.lex_step st p c) as [e|[ts st']]; [done|].
    rewrite IH. destruct (lex_steps st' _ a) as [e|[t1 s1]]; [done|].
    destruct (Engine.lex_from s1 _ b) as [e|more]; [done|].
    by rewrite app_assoc.
Qed.

Lemma lexes_nil st p : lexes_to st p [] [] st.
Proof. by exists []. Qed.

Lemma lexes_app st p a b k1 k2 s1 s2 :
  lexes_to st p a k1 s1 →
  lexes_to s1 (advance_all p a) b k2 s2 →
  lexes_to st p (a ++ b) (k1 ++ k2) s2.
Proof.
  intros (t1 & H1 & <-) (t2 & H2 & <-). exists (t1 ++ t2).
  rewrite lex_steps_app, H1, H2. by rewrite fmap_app.
Qed.

Lemma lexes_cons st p c rest ts s1 k2 s2 :
  Engine.lex_step st p c = inr (ts, s1) →
  lexes_to s1 (Engine.advance p c) rest k2 s2 →
  lexes_to st p (c :: rest) ((Engine.tok_kind <$> ts) ++ k2) s2.
Proof.
  intros H1 (t2 & H2 & <-). exists (ts ++ t2). cbn.
  rewrite H1, H2. by rewrite fmap_app.
Qed.

(** Character classes exclude one another as the lexer needs. *)
Lemma ident_start_class c :
  Engine.is_ident_start c = true →
  Engine.is_space c = false ∧ Engine.is_ident_char c = true.
Proof.
  destruct c as [[] [] [] [] [] [] [] []]; by vm_compute.
Qed.

Lemma digit_class c :
  Engine.is_digit c = true →
  Engine.is_space c = false ∧ Engine.is_ident_start c = false.
Proof.
  destruct c as [[] [] [] [] [] [] [] []]; by vm_compute.
Qed.

(** Inside a word, identifier characters accumulate. *)
Lemma lex_word_chars at_ acc p w :
  forallb Engine.is_ident_char w = true →
  lex_steps (Engine.LWord at_ acc) p w = inr ([], Engine.LWord at_ (acc ++ w)).
Proof.
  revert acc p. induction w as [|c w IH]; intros acc p Hw; cbn.
  - by rewrite app_nil_r.
  - cbn in Hw. apply andb_true_iff in Hw as [Hc Hw]. rewrite Hc.
    rewrite IH by done. by rewrite <- app_assoc.
Qed.

Lemma lex_number_digits at_ neg acc p ds :
  forallb Engine.is_digit ds = true →
  lex_steps (Engine.LNumber at_ neg acc) p ds
  = inr ([], Engine.LNumber at_ neg (acc ++ ds)).
Proof.
  revert acc p. induction ds as [|c ds IH]; intros acc p Hd; cbn.
  - by rewrite app_nil_r.
  - cbn in Hd. apply andb_true_iff in Hd as [Hc Hd]. rewrite Hc.
    rewrite IH by done. by rewrite <- app_assoc.
Qed.

(** Inside a string literal, an escaped character is read back as the
    character, and so an escaped text as the text. *)
Lemma lex_escaped_char at_ acc p c :
  lex_steps (Engine.LString at_ acc) p (Engine.escape_char c)
  = inr ([], Engine.LString at_ (acc ++ [c])).
Proof.
  unfold Engine.escape_char.
  destruct (decide (c = Engine.dquote)) as [->|Hq]; [reflexivity|].
  destruct (decide (c = Engine.backslash)) as [->|Hb]; [reflexivity|].
  rewrite !bool_decide_eq_false_2 by done. cbn.
  by rewrite !bool_decide_eq_false_2 by done.
Qed.

Lemma lex_string_body at_ acc p s :
  lex_steps (Engine.LString at_ acc) p (Engine.escape s)
  = inr ([], Engine.LString at_ (acc ++ s)).
Proof.
  revert acc p. induction s as [|c s IH]; intros acc p.
  - cbn. by rewrite app_nil_r.
  - change (Engine.escape (c :: s))
      with (Engine.escape_char c ++ Engine.escape s).
    rewrite lex_steps_app, lex_escaped_char, IH. by rewrite <- app_assoc.
Qed.

(** The pieces of a rendered line, token by token. *)
Lemma lex_set_keyword p :
  lexes_to Engine.LStart p (Engine.chars "set ")
    [Engine.KEYWORD Engine.KwSet] Engine.LStart.
Proof. eexists. split; vm_compute; reflexivity. Qed.

Lemma lex_const_set_keywords p :
  lexes_to Engine.LStart p (Engine.chars "const set ")
    [Engine.KEYWORD Engine.KwConst; Engine.KEYWORD Engine.KwSet] Engine.LStart.
Proof. eexists. split; vm_compute; reflexivity. Qed.

Lemma lex_assign_operator p :
  lexes_to Engine.LStart p ["="%char; Engine.space]
    [Engine.OPERATOR Engine.OpAssign] Engine.LStart.
Proof. eexists. split; vm_compute; reflexivity. Qed.

Lemma text_chars s : Engine.text (Engine.chars s) = s.
Proof. apply string_of_list_ascii_of_string. Qed.

Lemma chars_text cs : Engine.chars (Engine.text cs) = cs.
Proof. apply list_ascii_of_string_of_list_ascii. Qed.

Lemma lex_start_space p c :
  Engine.is_space c = true → Engine.lex_start p c = inr ([], Engine.LStart).
Proof. intros H. unfold Engine.lex_start. by rewrite H. Qed.

Lemma lex_step_start_space p c :
  Engine.is_space c = true →
  Engine.lex_step Engine.LStart p c = inr ([], Engine.LStart).
Proof. apply lex_start_space. Qed.

Lemma lex_open_quote p :
  Engine.lex_step Engine.LStart p Engine.dquote
  = inr ([], Engine.LString p []).
Proof. reflexivity. Qed.

Lemma lex_identifier p name :
  is_identifier name = true →
  lexes_to Engine.LStart p (Engine.chars name ++ [Engine.space])
    [Engine.IDENT name] Engine.LStart.
Proof.
  unfold is_identifier. intros H.
  apply andb_true_iff in H as [Hcs Hkw]. apply bool_decide_eq_true in Hkw.
  destruct (Engine.chars name) as [|c cs] eqn:Hn; [done|].
  apply andb_true_iff in Hcs as [Hc Hcs].
  destruct (ident_start_class c Hc) as [Hsp _].
  exists [Engine.mkTok (Engine.IDENT name) p]. split; [|done].
  cbn [app lex_steps Engine.lex_step]. unfold Engine.lex_start at 1.
  rewrite Hsp, Hc. rewrite lex_steps_app, lex_word_chars by done.
  cbn [lex_steps Engine.lex_step app].
  replace (Engine.is_ident_char Engine.space) with false by reflexivity.
  unfold Engine.lex_emit_then.
  rewrite (lex_start_space _ Engine.space) by reflexivity.
  by rewrite <- Hn, text_chars, Hkw.
Qed.

(** Decimal numerals are digits, and the lexer's value of a numeral is the
    number it was written from. *)
Lemma uint_digits d :
  forallb Engine.is_digit (Engine.chars (NilEmpty.string_of_uint d)) = true.
Proof. induction d; cbn; by rewrite ?IHd. Qed.

Lemma uint_numeral d :
  d ≠ Decimal.Nil →
  ∃ c cs, Engine.chars (NilZero.string_of_uint d) = c :: cs
          ∧ Engine.is_digit c = true
          ∧ forallb Engine.is_digit cs = true
          ∧ Engine.decimal_value (c :: cs) = Z.of_uint d.
Proof.
  intros Hd.
  assert (Hv : Engine.decimal_value (Engine.chars (NilZero.string_of_uint d))
               = Z.of_uint d).
  { unfold Engine.decimal_value. by rewrite text_chars, NilZero.usu. }
  pose proof (uint_digits d) as Hall.
  replace (NilEmpty.string_of_uint d) with (NilZero.string_of_uint d) in Hall
    by by destruct d.
  destruct (Engine.chars (NilZero.string_of_uint d)) as [|c cs] eqn:Hn.
  - destruct d; try done; discriminate Hn.
  - cbn in Hall. apply andb_true_iff in Hall as [Hc Hcs]. by exists c, cs.
Qed.

(** The digits of a numeral followed by a line break complete an integer
    literal, whether they come first or after a minus sign. *)
Lemma lex_digits_then_newline st at_ neg p c cs :
  Engine.lex_step st p c = inr ([], Engine.LNumber at_ neg [c]) →
  forallb Engine.is_digit cs = true →
  lexes_to st p ((c :: cs) ++ [Engine.newline])
    [Engine.number_kind neg (c :: cs)] Engine.LStart.
Proof.
  intros Hstep Hcs.
  exists [Engine.mkTok (Engine.number_kind neg (c :: cs)) at_]. split; [|done].
  cbn [app lex_steps]. rewrite Hstep.
  rewrite lex_steps_app, lex_number_digits by done.
  cbn [lex_steps Engine.lex_step app].
  replace (Engine.is_digit Engine.newline) with false by reflexivity.
  unfold Engine.lex_emit_then.
  by rewrite (lex_start_space _ Engine.newline) by reflexivity.
Qed.

Lemma lex_first_digit p c :
  Engine.is_digit c = true →
  Engine.lex_step Engine.LStart p c = inr ([], Engine.LNumber p false [c]).
Proof.
  intros Hc. destruct (digit_class c Hc) as [Hsp Hid].
  cbn. unfold Engine.lex_start. by rewrite Hsp, Hid, Hc.
Qed.

Lemma lex_int_literal p n :
  lexes_to Engine.LStart p (Engine.decimal n ++ [Engine.newline])
    [Engine.INT_LITERAL n] Engine.LStart.
Proof.
  unfold Engine.decimal.
  pose proof (DecimalZ.of_to n) as Hn.
  destruct (Z.to_int n) as [d|d] eqn:Hd.
  - assert (d ≠ Decimal.Nil) as Hnil.
    { destruct n as [|q|q]; unfold Z.to_int in Hd; [|injection Hd as <-|done].
      - by injection Hd as <-.
      - apply DecimalPos.Unsigned.to_uint_nonnil. }
    destruct (uint_numeral d Hnil) as (c & cs & Hc & Hd1 & Hds & Hv).
    change (NilZero.string_of_int (Decimal.Pos d))
      with (NilZero.string_of_uint d).
    rewrite Hc. replace (Engine.INT_LITERAL n)
      with (Engine.number_kind false (c :: cs)).
    + apply (lex_digits_then_newline _ p); [by apply lex_first_digit|done].
    + unfold Engine.number_kind. rewrite Hv. by rewrite <- Hn.
  - assert (d ≠ Decimal.Nil) as Hnil.
    { destruct n as [|q|q]; unfold Z.to_int in Hd; [done|done|].
      injection Hd as <-. apply DecimalPos.Unsigned.to_uint_nonnil. }
    destruct (uint_numeral d Hnil) as (c & cs & Hc & Hd1 & Hds & Hv).
    change (Engine.chars (NilZero.string_of_int (Decimal.Neg d)))
      with ("-"%char :: Engine.chars (NilZero.string_of_uint d)).
    rewrite Hc. replace (Engine.INT_LITERAL n)
      with (Engine.number_kind true (c :: cs)).
    + change (("-"%char :: c :: cs) ++ [Engine.newline])
        with ("-"%char :: (c :: cs) ++ [Engine.newline]).
      apply (lexes_cons _ _ _ _ [] (Engine.LMinus p)); [reflexivity|].
      apply (lex_digits_then_newline _ p); [|done]. cbn. by rewrite Hd1.
    + unfold Engine.number_kind. rewrite Hv. by rewrite <- Hn.
Qed.

Lemma lex_string_literal p s :
  lexes_to Engine.LStart p
    ((Engine.dquote :: Engine.escape (Engine.chars s) ++ [Engine.dquote])
     ++ [Engine.newline])
    [Engine.STRING_LITERAL s] Engine.LStart.
Proof.
  exists [Engine.mkTok (Engine.STRING_LITERAL s) p]. split; [|done].
  cbn [app lex_steps].
  rewrite lex_open_quote.
  rewrite <- app_assoc, lex_steps_app, lex_string_body.
  cbn [app lex_steps Engine.lex_step].
  replace (bool_decide (Engine.dquote = Engine.dquote)) with true by reflexivity.
  rewrite lex_step_start_space by reflexivity.
  by rewrite text_chars.
Qed.

Lemma lex_value p v :
  lexes_to Engine.LStart p (Engine.render_value v ++ [Engine.newline])
    [literal_kind v] Engine.LStart.
Proof.
  destruct v as [n|s]; [apply lex_int_literal|apply lex_string_literal].
Qed.

(** A rendered line reads back as its tokens, and leaves the lexer ready
    for the next line. *)
Lemma lex_rendered_var p v :
  is_identifier (Engine.var_name v) = true →
  lexes_to Engine.LStart p (Engine.render_var v) (kinds_of_var v) Engine.LStart.
Proof.
  intros Hname. unfold Engine.render_var, kinds_of_var.
  change (Engine.chars " = ") with ([Engine.space] ++ ["="%char; Engine.space]).
  rewrite <- !app_assoc.
  rewrite (app_assoc (Engine.chars (Engine.var_name v)) [Engine.space]).
  apply (lexes_app _ _ _ _ _ _ Engine.LStart);
    [destruct (Engine.var_is_const v);
       [apply lex_const_set_keywords|apply lex_set_keyword]|].
  apply (lexes_app _ _ _ _ [_] [_; _] Engine.LStart);
    [by apply lex_identifier|].
  apply (lexes_app _ _ _ _ [_] [_] Engine.LStart);
    [apply lex_assign_operator|].
  apply lex_value.
Qed.

Lemma lex_rendered_env p env :
  Forall (λ v, is_identifier (Engine.var_name v) = true) env →
  lexes_to Engine.LStart p (flat_map Engine.render_var env)
    (flat_map kinds_of_var env) Engine.LStart.
Proof.
  intros Hall. revert p.
  induction Hall as [|v env Hv Hall IH]; intros p; [apply lexes_nil|].
  cbn [flat_map].
  apply (lexes_app _ _ _ _ _ _ Engine.LStart);
    [by apply lex_rendered_var|apply IH].
Qed.

(** The token stream of a rendered environment. *)
Lemma tokenize_rendered env :
  Forall (λ v, is_identifier (Engine.var_name v) = true) env →
  ∃ toks eof,
    Engine.tokenize (Engine.render env) = inr (toks ++ [eof])
    ∧ Engine.tok_kind <$> toks = flat_map kinds_of_var env
    ∧ Engine.tok_kind eof = Engine.EOF.
Proof.
  intros Hall. unfold Engine.tokenize, Engine.render.
  destruct (lex_rendered_env Engine.start_pos env Hall) as (toks & Hl & Hk).
  rewrite chars_text.
  rewrite <- (app_nil_r (flat_map Engine.render_var env)).
  rewrite lex_from_app, Hl. cbn. by eexists _, _.
Qed.

(** ** Round trip: what the lexer reads, the parser and evaluator restore *)

Ltac first_token H :=
  let t := fresh "t" in
  let k := fresh "k" in
  let at_ := fresh "at_" in
  let Hk := fresh "Hk" in
  apply fmap_cons_inv in H as (t & ? & Hk & H & ->);
  symmetry in H; destruct t as [k at_]; cbn in Hk; subst k.

Lemma parse_rendered_var depth v toks rest :
  Engine.tok_kind <$> toks = kinds_of_var v →
  Engine.parse_statement (S depth) (toks ++ rest)
  = inr (statement_of_var v, rest).
Proof.
  unfold kinds_of_var, statement_of_var. intros H.
  destruct (Engine.var_is_const v); cbn [app] in H.
  - do 5 first_token H. apply fmap_nil_inv in H as ->.
    cbn. by destruct (Engine.var_value v).
  - do 4 first_token H. apply fmap_nil_inv in H as ->.
    cbn. by destruct (Engine.var_value v).
Qed.

Lemma parse_statements_unfold depth toks :
  Engine.parse_statements (S depth) toks =
  if Engine.ends_block (Engine.peek toks) then inr ([], toks)
  else
    match Engine.parse_statement depth toks with
    | inl e => inl e
    | inr (s, rest) =>
        match Engine.parse_statements depth rest with
        | inl e => inl e
        | inr (ss, rest') => inr (s :: ss, rest')
        end
    end.
Proof. reflexivity. Qed.

Lemma parse_rendered_env depth env toks rest :
  Engine.tok_kind <$> toks = flat_map kinds_of_var env →
  Engine.ends_block (Engine.peek rest) = true →
  (length env < depth)%nat →
  Engine.parse_statements depth (toks ++ rest)
  = inr (statement_of_var <$> env, rest).
Proof.
  revert depth toks. induction env as [|v env IH]; intros depth toks H Hend Hd.
  - apply fmap_nil_inv in H as ->. destruct depth as [|d]; [cbn in Hd; lia|].
    cbn. by rewrite Hend.
  - cbn [flat_map] in H. apply fmap_app_inv in H as (t1 & t2 & H1 & H2 & ->).
    symmetry in H1, H2. destruct depth as [|[|d]]; [cbn in Hd; lia..|].
    cbn [Engine.parse_statements].
    assert (Hfirst : Engine.ends_block (Engine.peek ((t1 ++ t2) ++ rest)) = false).
    { unfold kinds_of_var in H1.
      destruct (Engine.var_is_const v); cbn [app] in H1; by first_token H1. }
    rewrite Hfirst, <- app_assoc.
    rewrite (parse_rendered_var d v t1 (t2 ++ rest)) by done.
    rewrite <- parse_statements_unfold.
    rewrite IH; [done..|]. cbn in Hd. lia.
Qed.

(** The token stream of a rendered environment parses to one assignment
    per variable. *)
Lemma parse_rendered toks eof env :
  Engine.tok_kind <$> toks = flat_map kinds_of_var env →
  Engine.tok_kind eof = Engine.EOF →
  Engine.parse (toks ++ [eof]) = inr (statement_of_var <$> env).
Proof.
  intros H Heof. unfold Engine.parse.
  rewrite (parse_rendered_env _ env toks [eof] H).
  - destruct eof as [k at_]. cbn in Heof. by subst k.
  - unfold Engine.ends_block. cbn. by rewrite Heof.
  - assert (length env ≤ length toks)%nat; [|rewrite length_app; cbn; lia].
    rewrite <- (length_fmap Engine.tok_kind), H. clear.
    induction env as [|v env IH]; [done|]. cbn [flat_map].
    rewrite length_app. unfold kinds_of_var at 1.
    destruct (Engine.var_is_const v); cbn; lia.
Qed.

Lemma lookup_None name env :
  Engine.lookup name env = None ↔ name ∉ Engine.var_name <$> env.
Proof.
  unfold Engine.lookup. induction env as [|u env IH]; cbn.
  - split; [intros _; apply not_elem_of_nil|done].
  - rewrite not_elem_of_cons. case_bool_decide as Hu.
    + split; [done|]. intros [Hne _]. by destruct Hne.
    + rewrite IH. split; [by intros; split|by intros [_ ?]].
Qed.

Lemma store_fresh v env :
  Engine.lookup (Engine.var_name v) env = None →
  Engine.store v env = env ++ [v].
Proof.
  unfold Engine.lookup. induction env as [|u env IH]; cbn; [done|].
  case_bool_decide; [done|]. intros Hf. by rewrite IH.
Qed.

Lemma store_names v env :
  Engine.var_name <$> Engine.store v env =
  match Engine.lookup (Engine.var_name v) env with
  | Some _ => Engine.var_name <$> env
  | None => (Engine.var_name <$> env) ++ [Engine.var_name v]
  end.
Proof.
  unfold Engine.lookup. induction env as [|u env IH]; cbn; [done|].
  case_bool_decide as Hu; cbn; [by rewrite Hu|].
  rewrite IH. by destruct (find _ env).
Qed.

(** Executing the assignments of rendered lines appends the variables,
    one by one. *)
Lemma execute_rendered env1 env2 :
  NoDup (Engine.var_name <$> (env1 ++ env2)) →
  Engine.execute (statement_of_var <$> env2) env1 = (None, env1 ++ env2).
Proof.
  revert env1. induction env2 as [|v env2 IH]; intros env1 Hnd.
  - cbn. by rewrite app_nil_r.
  - cbn [fmap list_fmap Engine.execute Engine.exec_statement statement_of_var].
    unfold Engine.exec_assign.
    assert (Hfresh : Engine.lookup (Engine.var_name v) env1 = None).
    { apply lookup_None. rewrite fmap_app, fmap_cons in Hnd.
      apply NoDup_app in Hnd as (_ & Hdisj & _). intros Hin.
      apply (Hdisj _ Hin). apply elem_of_cons. by left. }
    replace (Engine.eval_expr (expr_of_value (Engine.var_value v)) env1)
      with (inr (Engine.var_value v) : Engine.Error + Engine.Value)
      by by destruct (Engine.var_value v).
    rewrite Hfresh, negb_involutive.
    replace (Engine.mkVar (Engine.var_name v) (Engine.var_value v)
               (Engine.var_is_const v)) with v by by destruct v.
    rewrite store_fresh by done.
    rewrite IH; [by rewrite <- app_assoc|]. by rewrite <- app_assoc.
Qed.

(** The round trip on well-formed environments. *)
Lemma load_rendered env :
  well_formed env →
  Engine.load_source (Engine.render env) [] = (None, env).
Proof.
  intros [Hnd Hid]. unfold Engine.load_source.
  destruct (tokenize_rendered env Hid) as (toks & eof & -> & Hk & Heof).
  rewrite (parse_rendered toks eof env Hk Heof).
  by apply (execute_rendered []).
Qed.

(** ** What [load] can build *)

(** Every identifier token the lexer emits is an identifier. *)
Lemma word_token_ok at_ acc :
  state_ok (Engine.LWord at_ acc) →
  token_ok (Engine.mkTok (Engine.word_kind (Engine.text acc)) at_).
Proof.
  intros Hst. unfold token_ok, Engine.word_kind. cbn.
  repeat (case_bool_decide; [done|]). cbn.
  unfold is_identifier. rewrite chars_text.
  destruct acc as [|c cs]; [done|]. cbn in Hst. rewrite Hst. cbn.
  apply bool_decide_eq_true. unfold Engine.word_kind.
  by rewrite !bool_decide_eq_false_2 by done.
Qed.

Lemma lex_start_ok p c ts st :
  Engine.lex_start p c = inr (ts, st) → Forall token_ok ts ∧ state_ok st.
Proof.
  unfold Engine.lex_start.
  destruct (Engine.is_space c); [by intros [= <- <-]|].
  destruct (Engine.is_ident_start c) eqn:Hc;
    [intros [= <- <-]; split; [done|]; cbn; by rewrite Hc|].
  repeat (match goal with
          | |- context [if ?b then _ else _] => destruct b
          end;
          [intros [= <- <-]; split; [by repeat constructor|done]|]).
  done.
Qed.

Lemma lex_emit_then_ok t p c ts st :
  token_ok t → Engine.lex_emit_then t p c = inr (ts, st) →
  Forall token_ok ts ∧ state_ok st.
Proof.
  intros Ht. unfold Engine.lex_emit_then.
  destruct (Engine.lex_start p c) as [e|[ts0 st0]] eqn:Hs; [done|].
  intros [= <- <-]. destruct (lex_start_ok _ _ _ _ Hs). by split; [constructor|].
Qed.

Lemma lex_step_ok st p c ts st' :
  state_ok st → Engine.lex_step st p c = inr (ts, st') →
  Forall token_ok ts ∧ state_ok st'.
Proof.
  intros Hst. destruct st as [|at_ acc|at_|at_ neg ds|at_ acc|at_ acc|at_ o];
    cbn [Engine.lex_step].
  - apply lex_start_ok.
  - destruct (Engine.is_ident_char c) eqn:Hc.
    + intros [= <- <-]. split; [done|]. destruct acc as [|a acc]; [done|].
      cbn in *. apply andb_true_iff in Hst as [Ha Hacc].
      rewrite Ha, forallb_app, Hacc. cbn. by rewrite Hc.
    + apply lex_emit_then_ok. by apply word_token_ok.
  - destruct (Engine.is_digit c); [by intros [= <- <-]|done].
  - destruct (Engine.is_digit c); [by intros [= <- <-]|].
    by apply lex_emit_then_ok.
  - repeat (match goal with
            | |- context [if ?b then _ else _] => destruct b
            end;
            [intros [= <- <-]; split; [by repeat constructor|done]|]).
    by intros [= <- <-].
  - destruct (_ || _); by intros [= <- <-].
  - destruct (bool_decide (c = "="%char)).
    + destruct (Engine.double_op o); [|done].
      intros [= <- <-]. split; [by repeat constructor|done].
    + destruct (Engine.single_op o); [|done]. by apply lex_emit_then_ok.
Qed.

Lemma lex_finish_ok st p toks :
  state_ok st → Engine.lex_finish st p = inr toks → Forall token_ok toks.
Proof.
  intros Hst. destruct st as [|at_ acc|at_|at_ neg ds|at_ acc|at_ acc|at_ o];
    cbn; try done; try (intros [= <-]; by repeat constructor).
  - intros [= <-]. constructor; [by apply word_token_ok|by repeat constructor].
  - destruct (Engine.single_op o); [|done].
    intros [= <-]. by repeat constructor.
Qed.

Lemma lex_from_ok st p cs toks :
  state_ok st → Engine.lex_from st p cs = inr toks → Forall token_ok toks.
Proof.
  revert st p toks. induction cs as [|c cs IH]; intros st p toks Hst; cbn.
  - by apply lex_finish_ok.
  - destruct (Engine.lex_step st p c) as [e|[ts st']] eqn:Hs; [done|].
    destruct (lex_step_ok _ _ _ _ _ Hst Hs) as [Hts Hst'].
    destruct (Engine.lex_from st' _ cs) as [e|more] eqn:Hm; [done|].
    intros [= <-]. apply Forall_app. split; [done|]. by eapply IH.
Qed.

Lemma tokenize_ok source toks :
  Engine.tokenize source = inr toks → Forall token_ok toks.
Proof. by apply lex_from_ok. Qed.

(** Every name the parser puts in an assignment comes from an identifier
    token, and what it leaves unread is a part of what it was given. *)
Lemma parse_expr_ok toks e rest :
  Forall token_ok toks → Engine.parse_expr toks = inr (e, rest) →
  Forall token_ok rest.
Proof.
  intros Hall H. unfold Engine.parse_expr in H.
  repeat case_match; simplify_eq; by apply Forall_cons in Hall as [_ ?].
Qed.

Lemma parse_comparison_ok toks c rest :
  Forall token_ok toks → Engine.parse_comparison toks = inr (c, rest) →
  Forall token_ok rest.
Proof.
  intros Hall H. unfold Engine.parse_comparison in H.
  destruct (Engine.parse_expr toks) as [e|[l r1]] eqn:H1; [done|].
  apply (parse_expr_ok _ _ _ Hall) in H1.
  destruct r1 as [|[[] at_] r1]; try done. destruct o as [|op]; [done|].
  destruct (Engine.parse_expr r1) as [e|[r r2]] eqn:H2; [done|].
  apply Forall_cons in H1 as [_ H1]. apply (parse_expr_ok _ _ _ H1) in H2.
  destruct (Engine.operands_incompatible l op r); by simplify_eq.
Qed.

Lemma parse_assign_ok mutable toks s rest :
  Forall token_ok toks → Engine.parse_assign mutable toks = inr (s, rest) →
  names_ok s = true ∧ Forall token_ok rest.
Proof.
  intros Hall H. unfold Engine.parse_assign in H.
  destruct toks as [|[[] at1] toks]; try done.
  apply Forall_cons in Hall as [Hname Hall].
  destruct toks as [|[[] at2] toks]; try done. destruct o; [|done].
  apply Forall_cons in Hall as [_ Hall].
  destruct (Engine.parse_expr toks) as [e|[v r]] eqn:H1; [done|].
  apply (parse_expr_ok _ _ _ Hall) in H1. by simplify_eq.
Qed.

Lemma parse_ok depth :
  (∀ toks s rest,
     Forall token_ok toks → Engine.parse_statement depth toks = inr (s, rest) →
     names_ok s = true ∧ Forall token_ok rest)
  ∧ (∀ toks ss rest,
       Forall token_ok toks →
       Engine.parse_statements depth toks = inr (ss, rest) →
       forallb names_ok ss = true ∧ Forall token_ok rest).
Proof.
  induction depth as [|depth [IHs IHss]]; [by split|]. split.
  - intros toks s rest Hall H. cbn [Engine.parse_statement] in H.
    destruct toks as [|[k at1] toks]; [done|].
    apply Forall_cons in Hall as [_ Hall].
    destruct k as [| | |[]| | | |]; try done.
    + by apply (parse_assign_ok true toks).
    + destruct toks as [|[[| | |[]| | | |] at2] toks]; try done.
      apply Forall_cons in Hall as [_ Hall].
      by apply (parse_assign_ok false toks).
    + destruct (Engine.parse_comparison toks) as [e|[c r1]] eqn:H1; [done|].
      apply (parse_comparison_ok _ _ _ Hall) in H1.
      destruct r1 as [|[[] at2] r1]; try done.
      apply Forall_cons in H1 as [_ H1].
      destruct (Engine.parse_statements depth r1) as [e|[body r2]] eqn:H2;
        [done|].
      destruct (IHss _ _ _ H1 H2) as [Hbody Hr2].
      destruct r2 as [|[[] at3] r2]; try done.
      apply Forall_cons in Hr2 as [_ Hr2]. by simplify_eq.
  - intros toks ss rest Hall H. rewrite parse_statements_unfold in H.
    destruct (Engine.ends_block (Engine.peek toks)); [by simplify_eq|].
    destruct (Engine.parse_statement depth toks) as [e|[s r1]] eqn:H1; [done|].
    destruct (IHs _ _ _ Hall H1) as [Hs Hr1].
    destruct (Engine.parse_statements depth r1) as [e|[ss' r2]] eqn:H2; [done|].
    destruct (IHss _ _ _ Hr1 H2) as [Hss Hr2].
    simplify_eq. cbn. by rewrite Hs, Hss.
Qed.

Lemma parse_names_ok toks program :
  Forall token_ok toks → Engine.parse toks = inr program →
  forallb names_ok program = true.
Proof.
  intros Hall H. unfold Engine.parse in H.
  destruct (Engine.parse_statements _ toks) as [e|[ss rest]] eqn:Hp; [done|].
  destruct (proj2 (parse_ok _) _ _ _ Hall Hp) as [Hss _].
  repeat case_match; by simplify_eq.
Qed.

(** Execution keeps environments well formed. *)
Lemma statement_ind_nested (P : Engine.Statement → Prop) :
  (∀ name mutable value, P (Engine.Assign name mutable value)) →
  (∀ condition body, Forall P body → P (Engine.Conditional condition body)) →
  ∀ s, P s.
Proof.
  intros Hassign Hcond. fix IH 1. intros [name mutable value|condition body].
  - apply Hassign.
  - apply Hcond. induction body as [|s body IHbody]; constructor.
    + apply IH.
    + apply IHbody.
Qed.

Lemma exec_conditional condition body env :
  Engine.exec_statement (Engine.Conditional condition body) env =
  match Engine.eval_comparison condition env with
  | inl e => (Some e, env)
  | inr false => (None, env)
  | inr true => Engine.execute body env
  end.
Proof.
  cbn [Engine.exec_statement].
  destruct (Engine.eval_comparison condition env) as [e|[|]]; [done| |done].
  revert env. induction body as [|s body IH]; intros env; [done|].
  cbn [Engine.execute]. destruct (Engine.exec_statement s env) as [[e|] env'];
    [done|apply IH].
Qed.

Lemma store_Forall (P : Engine.Var → Prop) v env :
  P v → Forall P env → Forall P (Engine.store v env).
Proof.
  intros Hv Henv. induction Henv as [|u env Hu Henv IH]; cbn.
  - by constructor.
  - case_bool_decide; by constructor.
Qed.

Lemma store_well_formed v env :
  is_identifier (Engine.var_name v) = true →
  well_formed env → well_formed (Engine.store v env).
Proof.
  intros Hv [Hnd Hid]. split; [|by apply store_Forall].
  rewrite store_names.
  destruct (Engine.lookup (Engine.var_name v) env) eqn:Hl; [done|].
  apply NoDup_app. split; [done|]. split; [|apply NoDup_singleton].
  intros x Hx Hx'. apply list_elem_of_singleton in Hx' as ->.
  by apply lookup_None in Hl.
Qed.

Lemma exec_assign_well_formed name mutable value env :
  is_identifier name = true → well_formed env →
  well_formed (Engine.exec_assign name mutable value env).2.
Proof.
  intros Hname Hwf. unfold Engine.exec_assign.
  destruct (Engine.eval_expr value env) as [e|v]; [done|].
  destruct (Engine.lookup name env) as [old|];
    [destruct (Engine.var_is_const old); [done|]|];
    by apply store_well_formed.
Qed.

Lemma execute_well_formed_from body :
  Forall (λ s, names_ok s = true →
               ∀ env, well_formed env →
                      well_formed (Engine.exec_statement s env).2) body →
  forallb names_ok body = true →
  ∀ env, well_formed env → well_formed (Engine.execute body env).2.
Proof.
  induction 1 as [|s body Hs Hbody IH]; intros Hok env Hwf; [done|].
  cbn in Hok. apply andb_true_iff in Hok as [Hs_ok Hbody_ok].
  cbn [Engine.execute]. specialize (Hs Hs_ok env Hwf).
  destruct (Engine.exec_statement s env) as [[e|] env']; [done|].
  by apply IH.
Qed.

Lemma exec_statement_well_formed s :
  names_ok s = true →
  ∀ env, well_formed env → well_formed (Engine.exec_statement s env).2.
Proof.
  induction s as [name mutable value|condition body IH]
    using statement_ind_nested; intros Hok env Hwf.
  - by apply exec_assign_well_formed.
  - rewrite exec_conditional.
    destruct (Engine.eval_comparison condition env) as [e|[|]]; [done| |done].
    by apply execute_well_formed_from.
Qed.

Lemma execute_well_formed program env :
  forallb names_ok program = true → well_formed env →
  well_formed (Engine.execute program env).2.
Proof.
  intros Hok Hwf. apply execute_well_formed_from; [|done..].
  apply Forall_forall. intros s _. apply exec_statement_well_formed.
Qed.

Lemma load_source_well_formed source env :
  well_formed env → well_formed (Engine.load_source source env).2.
Proof.
  intros Hwf. unfold Engine.load_source.
  destruct (Engine.tokenize source) as [e|toks] eqn:Ht; [done|].
  destruct (Engine.parse toks) as [e|program] eqn:Hp; [done|].
  apply execute_well_formed; [|done].
  eapply parse_names_ok; [|done]. by eapply tokenize_ok.
Qed.

Lemma load_string_well_formed source i :
  well_formed (Engine.inst_env i) →
  well_formed (Engine.inst_env (Engine.load_string source i).2).
Proof.
  intros Hwf. unfold Engine.load_string.
  pose proof (load_source_well_formed source _ Hwf) as H.
  by destruct (Engine.load_source source (Engine.inst_env i)) as [[e|] env].
Qed.

Lemma reachable_well_formed env : reachable env → well_formed env.
Proof.
  induction 1 as [|i source i' _ IH Hload|i path w i' _ IH Hload].
  - split; [apply NoDup_nil_2|done].
  - pose proof (load_string_well_formed source i IH) as H.
    by rewrite Hload in H.
  - unfold Engine.load_file in Hload.
    destruct (Engine.files w !! path) as [source|]; [|done].
    pose proof (load_string_well_formed source i IH) as H.
    by rewrite Hload in H.
Qed.

(** [save_file] and [load_file] of the binding, against the engine. *)
Lemma run_save_file w l h i path :
  Engine.instances w !! h = Some i →
  let r := run Engine.library
             (ConfigLang.save_file path (mkSelf l (Some (Some h)))) w in
  result_of r = Returned tt
  ∧ Engine.files (world_of r) !! c_str path
    = Some (Engine.render (Engine.inst_env i))
  ∧ Engine.next_handle (world_of r) = Engine.next_handle w.
Proof.
  intros Hi. py_unfold. unfold Engine.save_file. rewrite Hi. cbn.
  decide_status. by rewrite lookup_insert_eq.
Qed.

Lemma run_load_file w l h i path source :
  Engine.instances w !! h = Some i →
  Engine.files w !! c_str path = Some source →
  let r := run Engine.library
             (ConfigLang.load_file path (mkSelf l (Some (Some h)))) w in
  let a := Engine.load_string source i in
  result_of r = status_result a.1 (Engine.inst_last_error a.2) tt
  ∧ Engine.instances (world_of r) !! h = Some a.2.
Proof.
  intros Hi Hf. py_unfold. rewrite (on_instance_live _ _ _ _ _ Hi).
  unfold Engine.load_file. rewrite Hf.
  destruct (Engine.load_string source i) as [st i'].
  cbn. unfold status_result.
  case_bool_decide; cbn; [by rewrite lookup_insert_eq|].
  unfold raised_for.
  repeat (destruct (bool_decide _)); cbn;
    by rewrite last_error_updated, lookup_insert_eq.
Qed.

(** C3.  For every environment that successful loads reach from the empty
    one: the text the serializer renders, tokenized, parsed and executed
    on an empty environment, succeeds and yields the same variables (name,
    value and constness) in the same order; so does [load_string] of that
    text on a fresh instance, with status OK; and so does the binding:
    [save_file] on an instance holding that environment, then [load_file]
    of the same path on a newly created instance, both return, and the new
    instance holds the same environment. *)
Theorem render_load_round_trip (env : Engine.Environment) :
  reachable env →
  Engine.load_source (Engine.render env) [] = (None, env)
  ∧ Engine.load_string (Engine.render env) Engine.empty_instance
    = (ERR_CFG_OK, Engine.mkInstance env "")
  ∧ ∀ (w : Engine.World) (l : option string) (h : handle) (err path : string),
      Engine.instances w !! h = Some (Engine.mkInstance env err) →
      let saved :=
        run Engine.library
          (ConfigLang.save_file path (mkSelf l (Some (Some h)))) w in
      let created := Engine.library cfg_create (world_of saved) in
      let loaded :=
        run Engine.library
          (ConfigLang.load_file path (mkSelf l (Some created.1))) created.2 in
      result_of saved = Returned tt
      ∧ created.1 = Some (Engine.next_handle w)
      ∧ result_of loaded = Returned tt
      ∧ env_of (world_of loaded) (Engine.next_handle w) = Some env.
Proof.
  intros Hreach. apply reachable_well_formed in Hreach.
  pose proof (load_rendered env Hreach) as H.
  assert (Hload : Engine.load_string (Engine.render env) Engine.empty_instance
                  = (ERR_CFG_OK, Engine.mkInstance env "")).
  { unfold Engine.load_string. cbn [Engine.inst_env Engine.empty_instance].
    by rewrite H. }
  split; [done|]. split; [done|].
  intros w l h err path Hi. cbn zeta.
  destruct (run_save_file w l h _ path Hi) as (Hsaved & Hfile & Hnext).
  cbn [Engine.inst_env] in Hfile.
  set (w1 := world_of (run Engine.library (ConfigLang.save_file path _) w))
    in *.
  change (Engine.library cfg_create w1) with (Engine.create w1).
  unfold Engine.create. cbn [fst snd]. rewrite Hnext.
  set (w2 := Engine.mkWorld _ _ _ _ _ _ _).
  assert (H2 : Engine.instances w2 !! Engine.next_handle w
               = Some Engine.empty_instance) by apply lookup_insert_eq.
  destruct (run_load_file w2 l _ _ path _ H2 Hfile) as [Hloaded Hinst].
  rewrite Hload in Hloaded, Hinst. cbn [fst snd] in Hloaded, Hinst.
  repeat apply conj.
  - exact Hsaved.
  - reflexivity.
  - exact Hloaded.
  - exact (f_equal (fmap Engine.inst_env) Hinst).
Qed.

Lemma render_load_round_trip_witness :
  reachable example_env
  ∧ Engine.load_source (Engine.render example_env) [] = (None, example_env).
Proof.
  assert (Hreach : reachable example_env)
    by exact (reachable_load_string Engine.empty_instance example_program
                (Engine.mkInstance example_env "") reachable_empty
                example_program_loads).
  split; [exact Hreach|].
  exact (proj1 (render_load_round_trip example_env Hreach)).
Defined.

(** ** The parser's depth bound never decides

    Every call of the parser consumes tokens, so on a stream of [n]
    tokens the result is the same for every bound above [n]: [parse],
    which takes [n + 1], fails only where the grammar does. *)

Lemma parse_expr_consumes toks e rest :
  Engine.parse_expr toks = inr (e, rest) → (length rest < length toks)%nat.
Proof.
  unfold Engine.parse_expr. intros H.
  repeat case_match; simplify_eq; cbn; lia.
Qed.

Lemma parse_comparison_consumes toks c rest :
  Engine.parse_comparison toks = inr (c, rest) →
  (length rest < length toks)%nat.
Proof.
  unfold Engine.parse_comparison. intros H.
  destruct (Engine.parse_expr toks) as [e|[l r1]] eqn:H1; [done|].
  apply parse_expr_consumes in H1.
  destruct r1 as [|[[] at_] r1]; try done. destruct o as [|op]; [done|].
  destruct (Engine.parse_expr r1) as [e|[r r2]] eqn:H2; [done|].
  apply parse_expr_consumes in H2.
  destruct (Engine.operands_incompatible l op r); simplify_eq.
  cbn in H1. lia.
Qed.

Lemma parse_assign_consumes mutable toks s rest :
  Engine.parse_assign mutable toks = inr (s, rest) →
  (length rest < length toks)%nat.
Proof.
  unfold Engine.parse_assign. intros H.
  destruct toks as [|[[] at1] toks]; try done.
  destruct toks as [|[[] at2] toks]; try done. destruct o; [|done].
  destruct (Engine.parse_expr toks) as [e|[v r]] eqn:H1; [done|].
  apply parse_expr_consumes in H1. simplify_eq. cbn. lia.
Qed.

Lemma parse_consumes depth :
  (∀ toks s rest,
     Engine.parse_statement depth toks = inr (s, rest) →
     (length rest < length toks)%nat)
  ∧ (∀ toks ss rest,
       Engine.parse_statements depth toks = inr (ss, rest) →
       (length rest ≤ length toks)%nat).
Proof.
  induction depth as [|depth [IHs IHss]]; [by split|]. split.
  - intros toks s rest H. cbn [Engine.parse_statement] in H.
    destruct toks as [|[k at1] toks]; [done|].
    destruct k as [| | |[]| | | |]; try done.
    + apply parse_assign_consumes in H. cbn. lia.
    + destruct toks as [|[[| | |[]| | | |] at2] toks]; try done.
      apply parse_assign_consumes in H. cbn. lia.
    + destruct (Engine.parse_comparison toks) as [e|[c r1]] eqn:H1; [done|].
      apply parse_comparison_consumes in H1.
      destruct r1 as [|[[] at2] r1]; try done.
      destruct (Engine.parse_statements depth r1) as [e|[body r2]] eqn:H2;
        [done|].
      apply IHss in H2.
      destruct r2 as [|[[] at3] r2]; try done. simplify_eq.
      cbn in *. lia.
  - intros toks ss rest H. rewrite parse_statements_unfold in H.
    destruct (Engine.ends_block (Engine.peek toks)); [by simplify_eq|].
    destruct (Engine.parse_statement depth toks) as [e|[s r1]] eqn:H1; [done|].
    apply IHs in H1.
    destruct (Engine.parse_statements depth r1) as [e|[ss' r2]] eqn:H2; [done|].
    apply IHss in H2. simplify_eq. lia.
Qed.

Lemma parse_depth_enough d1 :
  (∀ toks d2,
     (0 < length toks ≤ d1)%nat → (length toks ≤ d2)%nat →
     Engine.parse_statement d1 toks = Engine.parse_statement d2 toks)
  ∧ (∀ toks d2,
       (length toks < d1)%nat → (length toks < d2)%nat →
       Engine.parse_statements d1 toks = Engine.parse_statements d2 toks).
Proof.
  induction d1 as [|d1 [IHs IHss]]; [split; intros; lia|]. split.
  - intros toks [|d2] H1 H2; [lia|]. cbn [Engine.parse_statement].
    destruct toks as [|[k at1] toks]; [done|].
    destruct k as [| | |[]| | | |]; try done.
    destruct (Engine.parse_comparison toks) as [e|[c r1]] eqn:Hc; [done|].
    apply parse_comparison_consumes in Hc.
    destruct r1 as [|[[] at2] r1]; try done.
    cbn in H1, H2, Hc. rewrite (IHss r1 d2) by lia. done.
  - intros toks [|d2] H1 H2; [lia|]. rewrite !parse_statements_unfold.
    destruct (Engine.ends_block (Engine.peek toks)) eqn:Hend; [done|].
    assert (0 < length toks)%nat by (destruct toks; [done|cbn; lia]).
    rewrite (IHs toks d2) by lia.
    destruct (Engine.parse_statement d2 toks) as [e|[s r1]] eqn:Hs; [done|].
    apply (proj1 (parse_consumes d2)) in Hs.
    by rewrite (IHss r1 d2) by lia.
Qed.

Lemma parse_depth_irrelevant toks depth :
  (length toks < depth)%nat →
  Engine.parse_statements depth toks
  = Engine.parse_statements (S (length toks)) toks.
Proof. intros H. apply (proj2 (parse_depth_enough depth)); lia. Qed.

(** ** More on the binding: what each method calls *)

Ltac footprint_op :=
  cbn;
  case_bool_decide; cbn; [done|];
  match goal with
  | |- context [?lib (cfg_get_error ?p) ?w1] =>
      destruct (lib (cfg_get_error p) w1) as [? ?]
  end;
  cbn; repeat (destruct (bool_decide _)); done.

(** X1.  Whatever the library and whatever [_cfg] holds (a handle, or None
    after [__exit__]): each of load_file, load_string, get_int,
    get_string, set_int and save_file passes [_cfg] as it is, makes its one
    call, asks for the error message only when the status is not OK, calls
    nothing else (in particular neither cfg_create nor cfg_destroy), and
    leaves the attributes of the object as they were; [get_error] makes
    the one call [cfg_get_error]. *)
Theorem operation_footprint (W : Type) (lib : Library W) (w : W)
    (l : option string) (p : c_void_p) :
  let self := mkSelf l (Some p) in
  let calls {A} (m : Py A) := calls_of (run lib (m self) w) in
  let kept {A} (m : Py A) := self_of (run lib (m self) w) = self in
  (∀ path, let c := cfg_load_file p path in
     calls (ConfigLang.load_file path) = footprint c (answer lib c w) p
     ∧ kept (ConfigLang.load_file path))
  ∧ (∀ code, let c := cfg_load_string p code in
       calls (ConfigLang.load_string code) = footprint c (answer lib c w) p
       ∧ kept (ConfigLang.load_string code))
  ∧ (∀ name, let c := cfg_get_int p name in
       calls (ConfigLang.get_int name) = footprint c (answer lib c w).1 p
       ∧ kept (ConfigLang.get_int name))
  ∧ (∀ name, let c := cfg_get_string p name in
       calls (ConfigLang.get_string name) = footprint c (answer lib c w).1 p
       ∧ kept (ConfigLang.get_string name))
  ∧ (∀ name value, let c := cfg_set_int p name (c_int value) in
       calls (ConfigLang.set_int name value) = footprint c (answer lib c w) p
       ∧ kept (ConfigLang.set_int name value))
  ∧ (∀ path, let c := cfg_save_file p path in
       calls (ConfigLang.save_file path) = footprint c (answer lib c w) p
       ∧ kept (ConfigLang.save_file path))
  ∧ calls ConfigLang.get_error = [cfg_get_error p]
  ∧ kept ConfigLang.get_error.
Proof.
  cbn zeta. unfold footprint. repeat apply conj.
  - intros path. py_unfold.
    destruct (lib (cfg_load_file p path) w) as [st w1]. footprint_op.
  - intros code. py_unfold.
    destruct (lib (cfg_load_string p code) w) as [st w1]. footprint_op.
  - intros name. py_unfold.
    destruct (lib (cfg_get_int p name) w) as [[st v] w1]. footprint_op.
  - intros name. py_unfold.
    destruct (lib (cfg_get_string p name) w) as [[st v] w1]. footprint_op.
  - intros name value. py_unfold.
    destruct (lib (cfg_set_int p name (c_int value)) w) as [st w1].
    footprint_op.
  - intros path. py_unfold.
    destruct (lib (cfg_save_file p path) w) as [st w1]. footprint_op.
  - py_unfold. by destruct (lib (cfg_get_error p) w).
  - py_unfold. by destruct (lib (cfg_get_error p) w).
Qed.

(** X2.  [get] against any library, by the status of [cfg_get_int].  When
    it is TYPE_MISMATCH, [get] goes on as [get_string] in the state the
    library is in after [cfg_get_int] and the query for the message, and
    gives what [get_string] gives (a string, or whatever it raises, a
    TypeMismatchError included).  For every other status [get] is
    [get_int]: its integer, its exception, its calls, and no
    [cfg_get_string]. *)
Theorem get_fallback (W : Type) (lib : Library W) (w : W)
    (l : option string) (p : c_void_p) (name : string) :
  let self := mkSelf l (Some p) in
  let status := (answer lib (cfg_get_int p name) w).1 in
  let got := run lib (ConfigLang.get name self) w in
  let first := run lib (ConfigLang.get_int name self) w in
  let second := run lib (ConfigLang.get_string name self) (world_of first) in
  self_of got = self
  ∧ if bool_decide (status = ERR_CFG_TYPE_MISMATCH)
    then result_of got = outcome_map PyStr (result_of second)
         ∧ calls_of got = calls_of first ++ calls_of second
         ∧ calls_of first = [cfg_get_int p name; cfg_get_error p]
         ∧ world_of got = world_of second
    else result_of got = outcome_map PyInt (result_of first)
         ∧ calls_of got = calls_of first
         ∧ world_of got = world_of first.
Proof.
  cbn zeta. py_unfold.
  destruct (lib (cfg_get_int p name) w) as [[st v] w1]. cbn.
  destruct (bool_decide (st = ERR_CFG_TYPE_MISMATCH)) eqn:Hst.
  - apply bool_decide_eq_true in Hst as ->. decide_status. cbn.
    destruct (lib (cfg_get_error p) w1) as [msg w2]. cbn.
    rewrite isinstance_own_class. cbn.
    destruct (lib (cfg_get_string p name) w2) as [[st2 v2] w3]. cbn.
    destruct (bool_decide (st2 = ERR_CFG_OK)); cbn; [done|].
    destruct (lib (cfg_get_error p) w3) as [msg2 w4]. cbn.
    repeat (destruct (bool_decide (st2 = _))); done.
  - destruct (bool_decide (st = ERR_CFG_OK)); cbn; [done|].
    destruct (lib (cfg_get_error p) w1) as [msg w2]. cbn.
    repeat (destruct (bool_decide (st = _))); done.
Qed.

(** ** Integers at the boundary *)

Lemma c_int_congruent (a b : Z) :
  c_int a = c_int b ↔ a mod 2 ^ 32 = b mod 2 ^ 32.
Proof.
  unfold c_int. split; intros H.
  - assert (Hm : (a + 2 ^ 31) mod 2 ^ 32 = (b + 2 ^ 31) mod 2 ^ 32) by lia.
    rewrite <- (Z.add_simpl_r a (2 ^ 31)), <- (Z.add_simpl_r b (2 ^ 31)).
    rewrite (Zminus_mod (a + 2 ^ 31)), (Zminus_mod (b + 2 ^ 31)).
    by rewrite Hm.
  - by rewrite (Zplus_mod a), (Zplus_mod b), H.
Qed.

(** X3.  [set_int] hands the engine the value as a C int and nothing
    checks the range: two values give the same [set_int] exactly when they
    are congruent modulo 2^32, every value stands for one in the signed
    32-bit range (itself, when it is in that range), and so does any
    value shifted by a multiple of 2^32. *)
Theorem set_int_wraps (name : string) (a b : Z) :
  (ConfigLang.set_int name a = ConfigLang.set_int name b
   ↔ a mod 2 ^ 32 = b mod 2 ^ 32)
  ∧ ConfigLang.set_int name a = ConfigLang.set_int name (c_int a)
  ∧ - 2 ^ 31 ≤ c_int a < 2 ^ 31
  ∧ (∀ k, ConfigLang.set_int name (a + k * 2 ^ 32) = ConfigLang.set_int name a)
  ∧ ((- 2 ^ 31 ≤ a < 2 ^ 31) → c_int a = a).
Proof.
  assert (Hsame : ∀ x y, c_int x = c_int y →
            ConfigLang.set_int name x = ConfigLang.set_int name y).
  { intros x y Hxy. unfold ConfigLang.set_int. by rewrite Hxy. }
  repeat apply conj.
  - intros Heq. apply c_int_congruent.
    apply (f_equal (λ m : Py unit, first_call (m (mkSelf None (Some None)))))
      in Heq.
    cbn in Heq. by simplify_eq.
  - intros Hmod. by apply Hsame, c_int_congruent.
  - apply Hsame. symmetry. apply c_int_in_range, c_int_bounds.
  - apply c_int_bounds.
  - apply c_int_bounds.
  - intros k. apply Hsame, c_int_congruent. by rewrite Z_mod_plus_full.
  - apply c_int_in_range.
Qed.

(** ** The search for the library *)









(** ** Construction *)

Ltac lookup_cases lib :=
  repeat match goal with
         | |- context [lib (ctypes_getattr ?p ?s) ?w0] =>
             destruct (lib (ctypes_getattr p s) w0) as [[?|] ?]; cbn
         end.

(** The declarations, against any library: the lookups are made in the
    order of the source and stop at the first symbol that is missing. *)
Lemma setup_functions_shape {W} (lib : Library W) path cfg w :
  let self := mkSelf (Some path) cfg in
  let r := run lib (ConfigLang._setup_functions self) w in
  self_of r = self
  ∧ (∃ n, calls_of r = take n (ctypes_getattr path <$> cfg_symbols))
  ∧ match result_of r with
    | Returned _ => calls_of r = ctypes_getattr path <$> cfg_symbols
    | Raised e => exc_class e = AttributeError
    end.
Proof.
  cbn zeta.
  unfold ConfigLang._setup_functions, ConfigLang.declare, self_lib. py_unfold.
  lookup_cases lib;
    (split; [done|]); (split; [|done]);
    match goal with
    | |- ∃ n, ?calls = _ => by exists (length calls)
    end.
Qed.

(** X10.  [_setup_functions] on an object whose library is loaded,
    against a library whose state the lookups leave as it is: the nine
    functions are looked up in the order of the source, each once; the
    first that is missing stops the method with the AttributeError of
    that lookup, and when none is missing the method returns.  The object
    is left as it was. *)
Theorem setup_functions_lookups (W : Type) (lib : Library W) (w : W)
    (path : string) (cfg : option c_void_p) :
  symbols_at_rest lib w →
  let self := mkSelf (Some path) cfg in
  let r := run lib (ConfigLang._setup_functions self) w in
  result_of r = match first_missing lib w path with
                | None => Returned tt
                | Some msg => Raised (mkExc AttributeError msg)
                end
  ∧ self_of r = self
  ∧ world_of r = w
  ∧ (∃ n, calls_of r = take n (ctypes_getattr path <$> cfg_symbols))
  ∧ (first_missing lib w path = None →
     calls_of r = ctypes_getattr path <$> cfg_symbols).
Proof.
  intros Hrest. cbn zeta.
  destruct (setup_functions_shape lib path cfg w) as (Hself & Hcalls & _).
  split; [|split; [exact Hself|split; [|split; [exact Hcalls|]]]];
    unfold first_missing, cfg_symbols, ConfigLang._setup_functions,
      ConfigLang.declare, self_lib;
    py_unfold;
    repeat match goal with
           | |- context [lib (ctypes_getattr ?p ?s) ?w0] =>
               let H := fresh in
               pose proof (Hrest p s) as H; unfold after in H;
               destruct (lib (ctypes_getattr p s) w0) as [[?|] ?];
               cbn in H; subst; cbn; [done|]
           end;
    done.
Qed.

Lemma engine_symbols_at_rest (w : Engine.World) :
  symbols_at_rest Engine.library w.
Proof. by intros path symbol. Qed.

Lemma setup_functions_lookups_witness :
  symbols_at_rest Engine.library fresh_host
  ∧ result_of (run Engine.library
                 (ConfigLang._setup_functions
                    (mkSelf (Some "/usr/lib/libconfiglang.so") None))
                 fresh_host)
    = Returned tt.
Proof.
  split; [exact (engine_symbols_at_rest fresh_host)|].
  exact (proj1 (setup_functions_lookups Engine.World Engine.library
                  fresh_host "/usr/lib/libconfiglang.so" None
                  (engine_symbols_at_rest fresh_host))).
Defined.

(** X5.  [__init__] with a path, against any library: one existence
    test, then the load, then the declarations of [_setup_functions], then
    [cfg_create], stopping at the first that fails.  A path that does not
    exist raises FileNotFoundError with the path in the message, which a
    handler for ConfigLangError does not catch, and the object has no
    attribute yet; a load that fails raises what the loader raised, the
    object still without attribute; a symbol the library lacks raises the
    AttributeError of the lookup, with [_lib] assigned and [_cfg] not; a
    null instance raises the base ConfigLangError, with [_cfg] set to
    null; otherwise the object holds the path and the handle. *)
Theorem init_with_path (W : Type) (lib : Library W) (w : W) (path : string) :
  let r := run lib (ConfigLang.__init__ (Some path) new_object) w in
  let w1 := after lib (os_path_exists path) w in
  let w2 := after lib (ctypes_CDLL path) w1 in
  let loaded := mkSelf (Some path) None in
  let setup := run lib (ConfigLang._setup_functions loaded) w2 in
  let first_calls := [os_path_exists path; ctypes_CDLL path] in
  if negb (answer lib (os_path_exists path) w) then
    result_of r
    = Raised (mkExc FileNotFoundError
                ("ConfigLang library not found: " +:+ path))
    ∧ self_of r = new_object
    ∧ calls_of r = [os_path_exists path]
    ∧ result_of (run lib (guarded (ConfigLang.__init__ (Some path)) tt
                            new_object) w) = result_of r
  else
    match answer lib (ctypes_CDLL path) w1 with
    | Raised e =>
        result_of r = Raised e
        ∧ self_of r = new_object
        ∧ calls_of r = first_calls
    | Returned _ =>
        match result_of setup with
        | Raised e =>
            result_of r = Raised e
            ∧ exc_class e = AttributeError
            ∧ self_of r = loaded
            ∧ calls_of r = first_calls ++ calls_of setup
        | Returned _ =>
            calls_of r
            = first_calls ++ (ctypes_getattr path <$> cfg_symbols)
              ++ [cfg_create]
            ∧ world_of r = after lib cfg_create (world_of setup)
            ∧ match answer lib cfg_create (world_of setup) with
              | None =>
                  result_of r
                  = Raised (mkExc ConfigLangError
                              "Failed to create ConfigLang instance")
                  ∧ self_of r = mkSelf (Some path) (Some None)
              | Some h =>
                  result_of r = Returned tt
                  ∧ self_of r = mkSelf (Some path) (Some (Some h))
              end
        end
    end.
Proof.
  cbn zeta. unfold guarded, try_except. rewrite run_prog_bind.
  rewrite init_path_run. unfold answer, after.
  destruct (lib (os_path_exists path) w) as [[|] w1]; cbn [negb fst snd];
    [|done].
  destruct (lib (ctypes_CDLL path) w1) as [[[]|e] w2]; cbn [fst snd]; [|done].
  destruct (setup_functions_shape lib path None w2) as (Hself & _ & Hres).
  destruct (run lib (ConfigLang._setup_functions _) w2)
    as [[[[[]|e] s] w3] t];
    unfold result_of, self_of, world_of, calls_of in *; cbn [fst snd] in *;
    subst s; [|done].
  rewrite Hres. by destruct (lib cfg_create w3) as [[h|] w4].
Qed.



(** ** The object as a context manager *)

(** X7.  A [with] block on the object, whatever its body does and
    whatever the library answers: [__enter__] hands the body the object
    itself and calls nothing; after the body, returned or raised,
    [__exit__] runs.  When the object then holds a handle, [cfg_destroy]
    is the one call added, on that handle, and [_cfg] is null afterwards;
    when [_cfg] is already null nothing is added.  In both cases the
    block gives what the body gave: [__exit__] returns False, so an
    exception of the body is never suppressed.  Only when [_cfg] was
    never assigned does [__exit__] itself raise, an AttributeError. *)
Theorem with_block_exits (W : Type) (lib : Library W) (w : W) (A : Type)
    (body : Py A) (self : Self) :
  let inner := run lib (body self) w in
  let r := run lib (with_block body self) w in
  run lib (__enter__ self) w = (Returned self, self, w, [])
  ∧ match _cfg (self_of inner) with
    | Some (Some h) =>
        result_of r = outcome_map Some (result_of inner)
        ∧ self_of r = mkSelf (_lib (self_of inner)) (Some None)
        ∧ world_of r = after lib (cfg_destroy (Some h)) (world_of inner)
        ∧ calls_of r = calls_of inner ++ [cfg_destroy (Some h)]
    | Some None =>
        result_of r = outcome_map Some (result_of inner)
        ∧ self_of r = self_of inner
        ∧ world_of r = world_of inner
        ∧ calls_of r = calls_of inner
    | None =>
        (∃ msg, result_of r = Raised (mkExc AttributeError msg))
        ∧ self_of r = self_of inner
        ∧ world_of r = world_of inner
        ∧ calls_of r = calls_of inner
    end.
Proof.
  cbn zeta. split; [done|].
  unfold with_block, __enter__. cbn [prog_bind fst snd].
  rewrite run_prog_bind.
  destruct (run lib (body self) w) as [[[res [l cfg]] w1] t].
  cbn [fst snd]. py_unfold.
  destruct cfg as [[h|]|]; cbn.
  - destruct (lib (cfg_destroy (Some h)) w1) as [[] w2]. cbn.
    by destruct res.
  - by destruct res; cbn; rewrite app_nil_r.
  - rewrite app_nil_r. repeat split. by eexists.
Qed.

(** ** Which handler catches which failure *)

(** X8.  A handler for one of the four specific classes catches exactly
    one status: what [_check_error] raises is an instance of ParseError
    only for PARSE_ERROR, of VariableNotFoundError only for
    VARIABLE_NOT_FOUND, of ConstViolationError only for CONST_VIOLATION,
    of TypeMismatchError only for TYPE_MISMATCH; so the check under such
    a handler returns for OK and for that status and raises for every
    other one, the base-class failures (null pointer, file error, out of
    memory, unknown, and any number outside the list) among them. *)
Theorem specific_handler_selects_status (W : Type) (lib : Library W) (w : W)
    (l : option string) (p : c_void_p) (status : Z) :
  let self := mkSelf l (Some p) in
  (check_result lib self status w = Returned tt ↔ status = ERR_CFG_OK)
  ∧ Forall (λ '(cls, code),
       (∀ e, check_result lib self status w = Raised e →
             (isinstance e cls = true ↔ status = code))
       ∧ (result_of (run lib (handled_by cls (ConfigLang._check_error status)
                                self) w) = Returned tt
          ↔ status = ERR_CFG_OK ∨ status = code))
      specific_errors.
Proof.
  cbn zeta. unfold specific_errors, handled_by, check_result. py_unfold.
  destruct (bool_decide (status = ERR_CFG_OK)) eqn:Hok.
  - apply bool_decide_eq_true in Hok as ->. cbn.
    split; [done|]. repeat constructor; try done; by left.
  - apply bool_decide_eq_false in Hok. cbn.
    destruct (lib (cfg_get_error p) w) as [msg w1]. cbn.
    unfold ERR_CFG_OK, ERR_CFG_PARSE_ERROR, ERR_CFG_VARIABLE_NOT_FOUND,
      ERR_CFG_CONST_VIOLATION, ERR_CFG_TYPE_MISMATCH in *.
    repeat case_bool_decide; subst; cbn;
      (split; [by split|]);
      repeat (apply Forall_cons_2; [cbv beta iota; split|]);
      try apply Forall_nil_2;
      try (intros e [= <-]);
      repeat match goal with
             | |- context [isinstance (mkExc ?c ?m) ?d] =>
                 let b := eval vm_compute in (issubclass c d) in
                 change (isinstance (mkExc c m) d) with b
             end;
      cbn; (split; [intros Heq|intros Hst]);
      first [done | lia | by right | by destruct Hst].
Qed.

(** ** The finaliser *)

(** X9.  [__del__] in every state of the object and against any library:
    it never raises, not even on an object whose construction stopped
    before [_cfg] was assigned; it calls [cfg_destroy] on the handle when
    the object holds one and nothing otherwise; and it leaves [_cfg] as it
    is, so that, unlike after [__exit__], running it again on a live
    object calls [cfg_destroy] again on the same handle. *)
Theorem del_in_every_state (W : Type) (lib : Library W) (w : W) (self : Self) :
  let r := run lib (ConfigLang.__del__ self) w in
  let again := run lib (ConfigLang.__del__ (self_of r)) (world_of r) in
  let left := run lib (ConfigLang.__exit__ self) w in
  let later := run lib (ConfigLang.__del__ (self_of left)) (world_of left) in
  result_of r = Returned tt
  ∧ self_of r = self
  ∧ calls_of r = match _cfg self with
                 | Some (Some h) => [cfg_destroy (Some h)]
                 | _ => []
                 end
  ∧ calls_of again = calls_of r
  ∧ calls_of left = calls_of r
  ∧ calls_of later = [].
Proof.
  cbn zeta. destruct self as [l [[h|]|]]; py_unfold; try done.
  destruct (lib (cfg_destroy (Some h)) w) as [[] w1]. cbn.
  by destruct (lib (cfg_destroy (Some h)) w1) as [[] w2].
Qed.
